(** * loolwsd/Util.cpp: identifiers, random file names, signal handling

    A shallow embedding of the functions of [Util.cpp] and the properties
    of them that the specification states.  C++ [int] and [unsigned] are
    integers of [Z] with their range written out, [std::string] is
    [string], a [std::vector<char>] is a [list byte], and the process-wide
    variables of the file ([TerminationFlag], the generator, the counter of
    [UniqueId], the signal dispositions, what was written to the standard
    error stream) are the fields of one state record that the functions
    pass along. *)

From Stdlib Require Import ZArith NArith String Ascii List Lia.
From Stdlib.Strings Require Import Byte.
From Stdlib Require Import DecimalString DecimalZ DecimalPos.
From stdpp Require Import base gmap.
Import ListNotations.

Local Open Scope string_scope.
Local Open Scope Z_scope.

#[local] Arguments String.append !s1 s2 : simpl nomatch.

(** ** The C++ library, as far as [Util.cpp] uses it *)

Module Cxx.

Definition UINT_MAX : Z := 2 ^ 32 - 1.
Definition INT_MAX : Z := 2 ^ 31 - 1.
Definition INT_MIN : Z := - 2 ^ 31.

(** Arithmetic of a 32-bit [int] that wraps, as [std::atomic_int] does. *)
Definition wrap_int (z : Z) : Z := (z + 2 ^ 31) mod 2 ^ 32 - 2 ^ 31.

(** [std::to_string(int)]: decimal digits, a leading [-] when negative. *)
Definition to_string (z : Z) : string := NilEmpty.string_of_int (Z.to_int z).

(** [std::string::substr(0, n)]. *)
Fixpoint substr0 (s : string) (n : nat) : string :=
  match n, s with
  | S m, String c r => String c (substr0 r m)
  | _, _ => EmptyString
  end.

(** [std::replace(s.begin(), s.end(), a, b)]. *)
Fixpoint replace_char (a b : ascii) (s : string) : string :=
  match s with
  | EmptyString => EmptyString
  | String c r => String (if Ascii.eqb c a then b else c) (replace_char a b r)
  end.

Fixpoint occurs (a : ascii) (s : string) : bool :=
  match s with
  | EmptyString => false
  | String c r => Ascii.eqb c a || occurs a r
  end.

(** *** [operator<<] of an [unsigned] under [std::hex] *)

Definition hex_digit (d : Z) : ascii :=
  match String.get (Z.to_nat d) "0123456789abcdef" with
  | Some c => c
  | None => "0"%char
  end.

(** The digits of [n], most significant first, in front of [acc]; every
    round takes four bits, so the number of bits of [n] is fuel enough. *)
Fixpoint hex_aux (fuel : nat) (n : Z) (acc : string) : string :=
  match fuel with
  | O => acc
  | S f =>
      let acc' := String (hex_digit (n mod 16)) acc in
      if n <? 16 then acc' else hex_aux f (n / 16) acc'
  end.

Definition hex (n : Z) : string :=
  hex_aux (S (Z.to_nat (Z.log2 n))) n EmptyString.

Fixpoint fill (n : nat) (c : ascii) : string :=
  match n with
  | O => EmptyString
  | S m => String c (fill m c)
  end.

(** [os << std::hex << std::setw(w) << std::setfill(c) << n]: the field
    is filled on the left up to width [w]; a width that is not larger
    than the digits (zero and negative ones too) adds nothing. *)
Definition put_hex (w : Z) (c : ascii) (n : Z) : string :=
  let digits := hex n in
  (fill (Z.to_nat (w - Z.of_nat (String.length digits))) c ++ digits)%string.

(** *** [operator>>] into an [unsigned] under [std::hex] *)

Definition is_space (c : ascii) : bool :=
  let n := nat_of_ascii c in
  (n =? 32)%nat || ((9 <=? n)%nat && (n <=? 13)%nat).

Fixpoint skip_ws (s : string) : string :=
  match s with
  | String c r => if is_space c then skip_ws r else s
  | EmptyString => s
  end.

Definition hex_val (c : ascii) : option Z :=
  let n := Z.of_nat (nat_of_ascii c) in
  if (48 <=? n) && (n <=? 57) then Some (n - 48)
  else if (97 <=? n) && (n <=? 102) then Some (n - 87)
  else if (65 <=? n) && (n <=? 70) then Some (n - 55)
  else None.

(** The value of the longest run of hexadecimal digits at the head of
    [s], continuing from [acc]. *)
Fixpoint read_hex (s : string) (acc : Z) : Z :=
  match s with
  | String c r =>
      match hex_val c with
      | Some d => read_hex r (16 * acc + d)
      | None => acc
      end
  | EmptyString => acc
  end.

(** Every character of [s] is a hexadecimal digit. *)
Fixpoint all_hex (s : string) : bool :=
  match s with
  | EmptyString => true
  | String c r => match hex_val c with Some _ => all_hex r | None => false end
  end.

Definition starts_with_digit (s : string) : bool :=
  match s with
  | String c _ => match hex_val c with Some _ => true | None => false end
  | EmptyString => false
  end.

(** An optional sign in front of the number. *)
Definition read_sign (s : string) : bool * string :=
  match s with
  | String "-" r => (true, r)
  | String "+" r => (false, r)
  | _ => (false, s)
  end.

(** An optional [0x] or [0X] in front of the digits. *)
Definition read_prefix (s : string) : string :=
  match s with
  | String "0" (String "x" r) => r
  | String "0" (String "X" r) => r
  | _ => s
  end.

(** [is >> id] for an [unsigned id], base sixteen: white space is
    skipped, then a sign, a prefix and the digits are read.  Without a
    digit the extraction fails and stores zero; a value that does not fit
    stores the largest [unsigned]; a negative one is negated modulo
    [2^32]. *)
Definition get_hex (s : string) : Z :=
  let (negative, s1) := read_sign (skip_ws s) in
  let s2 := read_prefix s1 in
  if starts_with_digit s2 then
    let v := read_hex s2 0 in
    if v >? UINT_MAX then UINT_MAX
    else if negative then (- v) mod 2 ^ 32 else v
  else 0.

End Cxx.

(** ** [Poco::Base64Encoder]

    The stream buffer of the encoder collects the characters written to it
    in groups of three and passes four characters of the alphabet to the
    stream under it for each full group; an incomplete group is passed on
    only by [close], which nothing in [Util.cpp] calls before it reads the
    result. *)

Module Poco.

Definition OUT_ENCODING : string :=
  "ABCDEFGHIJKLMNOPQRSTUVWXYZabcdefghijklmnopqrstuvwxyz0123456789+/".

Definition encoding (idx : Z) : ascii :=
  match String.get (Z.to_nat idx) OUT_ENCODING with
  | Some c => c
  | None => "A"%char
  end.

Record Base64EncoderBuf := {
  _group : list Z;      (* the bytes of the group begun, [_groupLength] of them *)
  _pos : Z;             (* characters on the line begun *)
  _lineLength : Z;
  _buf : string         (* what the stream under the encoder holds *)
}.

(** [Base64Encoder b64(ss)]: lines of 72 characters. *)
Definition Base64Encoder : Base64EncoderBuf :=
  {| _group := []; _pos := 0; _lineLength := 72; _buf := EmptyString |}.

Definition CRLF : string := String (ascii_of_nat 13) (String (ascii_of_nat 10) EmptyString).

Definition writeToDevice (c : byte) (b : Base64EncoderBuf) : Base64EncoderBuf :=
  match (_group b ++ [Z.of_N (Byte.to_N c)])%list with
  | [g0; g1; g2] =>
      let quad :=
        String (encoding (Z.shiftr g0 2))
       (String (encoding (Z.lor (Z.shiftl (Z.land g0 3) 4) (Z.shiftr g1 4)))
       (String (encoding (Z.lor (Z.shiftl (Z.land g1 15) 2) (Z.shiftr g2 6)))
       (String (encoding (Z.land g2 63)) EmptyString))) in
      let pos := _pos b + 4 in
      if (0 <? _lineLength b) && (_lineLength b <=? pos) then
        {| _group := []; _pos := 0; _lineLength := _lineLength b;
           _buf := (_buf b ++ quad ++ CRLF)%string |}
      else
        {| _group := []; _pos := pos; _lineLength := _lineLength b;
           _buf := (_buf b ++ quad)%string |}
  | g =>
      {| _group := g; _pos := _pos b; _lineLength := _lineLength b; _buf := _buf b |}
  end.

(** [b64 << p] for a [char* p]: the characters at [p] up to the first
    NUL, one [writeToDevice] each. *)
Fixpoint c_str (mem : list byte) : list byte :=
  match mem with
  | [] => []
  | c :: m => if Byte.eqb c x00 then [] else c :: c_str m
  end.

Definition write (cs : list byte) (b : Base64EncoderBuf) : Base64EncoderBuf :=
  fold_left (fun b c => writeToDevice c b) cs b.

End Poco.

(** ** Signal numbers and their names *)

(** The numbers of [<signal.h>].  The signals that [signalName] puts
    under [#ifdef] are optional. *)
Class Signum := {
  SIGHUP : Z; SIGINT : Z; SIGQUIT : Z; SIGILL : Z; SIGABRT : Z; SIGFPE : Z;
  SIGKILL : Z; SIGSEGV : Z; SIGPIPE : Z; SIGALRM : Z; SIGTERM : Z;
  SIGUSR1 : Z; SIGUSR2 : Z; SIGCHLD : Z; SIGCONT : Z; SIGSTOP : Z;
  SIGTSTP : Z; SIGTTIN : Z; SIGTTOU : Z; SIGBUS : Z; SIGPROF : Z;
  SIGSYS : Z; SIGTRAP : Z; SIGURG : Z; SIGVTALRM : Z; SIGXCPU : Z;
  SIGXFSZ : Z; SIGWINCH : Z;
  SIGPOLL : option Z; SIGEMT : option Z; SIGSTKFLT : option Z;
  SIGIO : option Z; SIGPWR : option Z; SIGLOST : option Z; SIGINFO : option Z
}.

(** Linux on x86, the platform of [<sys/prctl.h>]. *)
Definition linux : Signum := {|
  SIGHUP := 1; SIGINT := 2; SIGQUIT := 3; SIGILL := 4; SIGTRAP := 5;
  SIGABRT := 6; SIGBUS := 7; SIGFPE := 8; SIGKILL := 9; SIGUSR1 := 10;
  SIGSEGV := 11; SIGUSR2 := 12; SIGPIPE := 13; SIGALRM := 14; SIGTERM := 15;
  SIGCHLD := 17; SIGCONT := 18; SIGSTOP := 19; SIGTSTP := 20; SIGTTIN := 21;
  SIGTTOU := 22; SIGURG := 23; SIGXCPU := 24; SIGXFSZ := 25; SIGVTALRM := 26;
  SIGPROF := 27; SIGWINCH := 28; SIGSYS := 31;
  SIGSTKFLT := Some 16; SIGPOLL := Some 29; SIGIO := Some 29; SIGPWR := Some 30;
  SIGEMT := None; SIGLOST := None; SIGINFO := None
|}.

Section SignalName.
Context `{Signum}.

(** [#define CASE(x) case SIG##x: return "SIG" #x] *)
Definition CASE (x : Z) (name : string) : Z * string := (x, ("SIG" ++ name)%string).

(** [#ifdef SIGx CASE(x); #endif] *)
Definition CASE_ifdef (x : option Z) (name : string) : list (Z * string) :=
  match x with
  | Some v => [CASE v name]
  | None => []
  end.

(** [#if defined(SIGx) && SIGx != SIGy]: in [#if] a name that is not a
    macro counts as zero. *)
Definition CASE_if_differs (x y : option Z) (name : string) : list (Z * string) :=
  match x with
  | Some v => if v =? default 0 y then [] else [CASE v name]
  | None => []
  end.

(** The case labels of the [switch], in the order of the source. *)
Definition signal_cases : list (Z * string) :=
  ([CASE SIGHUP "HUP"; CASE SIGINT "INT"; CASE SIGQUIT "QUIT"; CASE SIGILL "ILL";
    CASE SIGABRT "ABRT"; CASE SIGFPE "FPE"; CASE SIGKILL "KILL"; CASE SIGSEGV "SEGV";
    CASE SIGPIPE "PIPE"; CASE SIGALRM "ALRM"; CASE SIGTERM "TERM"; CASE SIGUSR1 "USR1";
    CASE SIGUSR2 "USR2"; CASE SIGCHLD "CHLD"; CASE SIGCONT "CONT"; CASE SIGSTOP "STOP";
    CASE SIGTSTP "TSTP"; CASE SIGTTIN "TTIN"; CASE SIGTTOU "TTOU"; CASE SIGBUS "BUS"]
   ++ CASE_ifdef SIGPOLL "POLL"
   ++ [CASE SIGPROF "PROF"; CASE SIGSYS "SYS"; CASE SIGTRAP "TRAP"; CASE SIGURG "URG";
       CASE SIGVTALRM "VTALRM"; CASE SIGXCPU "XCPU"; CASE SIGXFSZ "XFSZ"]
   ++ CASE_ifdef SIGEMT "EMT"
   ++ CASE_ifdef SIGSTKFLT "STKFLT"
   ++ CASE_if_differs SIGIO SIGPOLL "IO"
   ++ CASE_ifdef SIGPWR "PWR"
   ++ CASE_ifdef SIGLOST "LOST"
   ++ [CASE SIGWINCH "WINCH"]
   ++ CASE_if_differs SIGINFO SIGPWR "INFO")%list.

Definition case_labels : list Z := map fst signal_cases.

(** The [switch]: control goes to the case whose label is [signo] and to
    [default] when there is none. *)
Definition signalName (signo : Z) : string :=
  match List.find (fun c => fst c =? signo) signal_cases with
  | Some c => snd c
  | None => "unknown"
  end.

End SignalName.

(** ** The process: its variables and what it asks of the system *)

(** What [sa_handler] can be in this file. *)
Inductive sighandler := SIG_DFL | HandleTermination | HandleFatal.

Record iovec := { iov_base : string; iov_len : nat }.

(** The calls that leave the process, in the order they are made. *)
Inductive event :=
| Log_signalLogPrefix
| Log_signalLog (message : string)
| Log_syserror (message : string)
| Sys_sleep (seconds : Z)
| Sys_sigaction (signo : Z) (handler : sighandler)
| Sys_backtrace (size : Z)
| Sys_backtrace_symbols (size : Z)
| Sys_writev (fd : Z) (iov : list iovec)
| Sys_kill (pid : Z) (signo : Z)
| Default_action (signo : Z)
| File_createDirectories (parent name : string)
| File_copyTo (source destination : string)
| TemporaryFile_registerForDeletion (path : string).

(** [std::mt19937_64]: the seed it was given and how many values were
    drawn since. *)
Record mt19937_64 := { mt_seed : Z; mt_drawn : N }.

(** What the functions read from outside the file. *)
Record Env := {
  getpid : Z;
  LOOL_DEBUG : bool;                (* [std::getenv("LOOL_DEBUG")] is not null *)
  call_stack : list Z;              (* return addresses, innermost first *)
  symbol : Z -> string;             (* the line [backtrace_symbols] gives an address *)
  symbols_allocated : bool;         (* false: [backtrace_symbols] returns [NULL] *)
  writev_result : Z;
  rd_entropy : bool;                (* [_rd.entropy()] is not zero *)
  rd_at_start : Z;                  (* [_rd()] in the initialiser of [_rng] *)
  clock_at_start : Z;               (* [clock()] in the initialiser of [_rng] *)
  rd : Z;                           (* [_rd()] in [reseed] *)
  clock : Z;                        (* [clock()] in [reseed] *)
  mt_output : Z -> N -> Z;          (* seed, index: the value the generator gives *)
  temp : string;                    (* [Poco::Path::temp()] *)
  default_padding : Z               (* of [encodeId], declared in [Util.hpp] *)
}.

Record State := {
  TerminationFlag : bool;
  FatalGdbString : string;
  counter : Z;                      (* the static of [UniqueId] *)
  _rng : mt19937_64;
  _rngMutex : bool;                 (* locked *)
  sigactions : gmap Z sighandler;   (* dispositions; none recorded: default *)
  pending : list Z;                 (* signals raised and not yet delivered *)
  events : list event
}.

Definition STDERR_FILENO : Z := 2.
Definition LF : string := String (ascii_of_nat 10) EmptyString.

Definition with_flag (b : bool) (st : State) : State :=
  {| TerminationFlag := b; FatalGdbString := FatalGdbString st; counter := counter st;
     _rng := _rng st; _rngMutex := _rngMutex st; sigactions := sigactions st;
     pending := pending st; events := events st |}.

Definition with_gdb (g : string) (st : State) : State :=
  {| TerminationFlag := TerminationFlag st; FatalGdbString := g; counter := counter st;
     _rng := _rng st; _rngMutex := _rngMutex st; sigactions := sigactions st;
     pending := pending st; events := events st |}.

Definition with_counter (c : Z) (st : State) : State :=
  {| TerminationFlag := TerminationFlag st; FatalGdbString := FatalGdbString st; counter := c;
     _rng := _rng st; _rngMutex := _rngMutex st; sigactions := sigactions st;
     pending := pending st; events := events st |}.

Definition with_rng (g : mt19937_64) (st : State) : State :=
  {| TerminationFlag := TerminationFlag st; FatalGdbString := FatalGdbString st;
     counter := counter st; _rng := g; _rngMutex := _rngMutex st;
     sigactions := sigactions st; pending := pending st; events := events st |}.

Definition with_mutex (m : bool) (st : State) : State :=
  {| TerminationFlag := TerminationFlag st; FatalGdbString := FatalGdbString st;
     counter := counter st; _rng := _rng st; _rngMutex := m;
     sigactions := sigactions st; pending := pending st; events := events st |}.

Definition with_sigactions (a : gmap Z sighandler) (st : State) : State :=
  {| TerminationFlag := TerminationFlag st; FatalGdbString := FatalGdbString st;
     counter := counter st; _rng := _rng st; _rngMutex := _rngMutex st;
     sigactions := a; pending := pending st; events := events st |}.

Definition with_pending (p : list Z) (st : State) : State :=
  {| TerminationFlag := TerminationFlag st; FatalGdbString := FatalGdbString st;
     counter := counter st; _rng := _rng st; _rngMutex := _rngMutex st;
     sigactions := sigactions st; pending := p; events := events st |}.

Definition emit (e : event) (st : State) : State :=
  {| TerminationFlag := TerminationFlag st; FatalGdbString := FatalGdbString st;
     counter := counter st; _rng := _rng st; _rngMutex := _rngMutex st;
     sigactions := sigactions st; pending := pending st;
     events := (events st ++ [e])%list |}.

Definition with_events_of (st : State) (es : list event) : State :=
  {| TerminationFlag := TerminationFlag st; FatalGdbString := FatalGdbString st;
     counter := counter st; _rng := _rng st; _rngMutex := _rngMutex st;
     sigactions := sigactions st; pending := pending st; events := es |}.

(** The seed [reseed] takes, [_rd.entropy() ? _rd() : (clock() + getpid())],
    from what the device and the clock give at that call. *)
Definition fresh_seed (env : Env) : Z :=
  if rd_entropy env then rd env else clock env + getpid env.

(** The seed in the initialiser of [_rng]: the same expression, from what
    the device and the clock give when the process starts. *)
Definition initial_seed (env : Env) : Z :=
  if rd_entropy env then rd_at_start env else clock_at_start env + getpid env.

(** The process when it starts. *)
Definition start (env : Env) : State :=
  {| TerminationFlag := false; FatalGdbString := EmptyString; counter := 0;
     _rng := {| mt_seed := initial_seed env; mt_drawn := 0 |}; _rngMutex := false;
     sigactions := ∅; pending := []; events := [] |}.

(** ** The generator, random bytes and file names ([Util::rng])

    [reseed] and [getNext] are sequences of steps on the generator and on
    its mutex; a thread that runs one does its steps one after the other. *)

Module rng.

Inductive rng_step :=
| Lock                (* [std::unique_lock<std::mutex> lock(_rngMutex)] *)
| Unlock              (* the end of the scope of [lock] *)
| Draw                (* [_rng()] *)
| Seed (seed : Z).    (* [_rng.seed(seed)] *)

Definition reseed_steps (env : Env) : list rng_step := [Seed (fresh_seed env)].

Definition getNext_steps : list rng_step := [Lock; Draw; Unlock].

(** A step that changes the generator. *)
Definition mutates (a : rng_step) : bool :=
  match a with
  | Draw | Seed _ => true
  | Lock | Unlock => false
  end.

(** One step of a thread that is not kept waiting, with the value it
    returns if it is a draw ([unsigned]). *)
Definition rng_do (env : Env) (a : rng_step) (st : State) : option Z * State :=
  match a with
  | Lock => (None, with_mutex true st)
  | Unlock => (None, with_mutex false st)
  | Draw =>
      let g := _rng st in
      (Some (mt_output env (mt_seed g) (mt_drawn g) mod 2 ^ 32),
       with_rng {| mt_seed := mt_seed g; mt_drawn := N.succ (mt_drawn g) |} st)
  | Seed s => (None, with_rng {| mt_seed := s; mt_drawn := 0 |} st)
  end.

Fixpoint rng_run (env : Env) (steps : list rng_step) (result : option Z) (st : State)
  : option Z * State :=
  match steps with
  | [] => (result, st)
  | a :: rest =>
      let (r, st') := rng_do env a st in
      rng_run env rest (match r with Some v => Some v | None => result end) st'
  end.

Definition reseed (env : Env) (st : State) : State :=
  snd (rng_run env (reseed_steps env) None st).

Definition getNext (env : Env) (st : State) : Z * State :=
  let (r, st') := rng_run env getNext_steps None st in
  (default 0 r, st').

(** *** Threads

    Each thread has the steps it still has to do; [holder] is the thread
    that has locked the mutex.  The thread the scheduler picks does its
    next step, unless that is to lock a mutex that is locked: then it
    waits.  A step that changes the generator while the thread does not
    hold the mutex is put on record in [raced]. *)

Record Threads := {
  holder : option nat;
  pool : list (list rng_step);
  process : State;
  raced : list (nat * rng_step)
}.

Definition threads (programs : list (list rng_step)) (st : State) : Threads :=
  {| holder := None; pool := programs; process := st; raced := [] |}.

Definition enabled (a : rng_step) (st : State) : bool :=
  match a with
  | Lock => negb (_rngMutex st)
  | _ => true
  end.

Definition holds (t : nat) (m : Threads) : bool := bool_decide (holder m = Some t).

Definition thread_step (env : Env) (m : Threads) (t : nat) : Threads :=
  match pool m !! t with
  | Some (a :: rest) =>
      if enabled a (process m) then
        {| holder := match a with
                     | Lock => Some t
                     | Unlock => None
                     | _ => holder m
                     end;
           pool := <[t := rest]> (pool m);
           process := snd (rng_do env a (process m));
           raced := if mutates a && negb (holds t m)
                    then (raced m ++ [(t, a)])%list else raced m |}
      else m
  | _ => m
  end.

Definition run_threads (env : Env) (schedule : list nat) (m : Threads) : Threads :=
  fold_left (thread_step env) schedule m.

(** [n] calls of [getNext], one after the other. *)
Fixpoint getNext_calls (n : nat) : list rng_step :=
  match n with
  | O => []
  | S k => (getNext_steps ++ getNext_calls k)%list
  end.

(** Where a thread that only calls [getNext] can be: between two calls,
    without the mutex, or inside one, with it. *)
Inductive at_getNext (t : nat) (m : Threads) : list rng_step -> Prop :=
| between_calls n : holder m <> Some t -> at_getNext t m (getNext_calls n)
| before_draw n : holder m = Some t -> at_getNext t m (Draw :: Unlock :: getNext_calls n)
| before_unlock n : holder m = Some t -> at_getNext t m (Unlock :: getNext_calls n).

Definition getNext_only (m : Threads) : Prop :=
  (holder m = None <-> _rngMutex (process m) = false)
  /\ forall t steps, pool m !! t = Some steps -> at_getNext t m steps.

(** [_randBuf.readFromDevice(v.data(), v.size())] on a vector of
    [length] elements; [dev i] is the byte the device delivers at
    offset [i] of the read. *)
Definition getBytes (dev : nat -> byte) (length : nat) : list byte :=
  map dev (seq 0 length).

(** [b64 << getBytes(length).data()] writes the vector as a C string.
    The vector has no terminator of its own: the write ends at the first
    NUL among the random bytes and, when they hold none, goes on into the
    memory that follows the vector, [beyond]. *)
Definition getB64String (dev : nat -> byte) (beyond : list byte) (length : nat) : string :=
  let b64 := Poco.write (Poco.c_str (getBytes dev length ++ beyond)%list) Poco.Base64Encoder in
  Cxx.substr0 (Poco._buf b64) length.

Definition getFilename (dev : nat -> byte) (beyond : list byte) (length : nat) : string :=
  let s := getB64String dev beyond length in
  let s := Cxx.replace_char "/" "_" s in
  Cxx.substr0 s length.

End rng.

(** ** Identifiers *)

(** [oss << std::hex << std::setw(padding) << std::setfill('0') << number] *)
Definition encodeId (number : Z) (padding : Z) : string :=
  Cxx.put_hex padding "0" number.

(** [ss << std::hex << str; ss >> id] with [id] zero before. *)
Definition decodeId (str : string) : Z :=
  Cxx.get_hex str.

(** Create a secure, random directory path. *)
Definition createRandomDir (dev : nat -> byte) (beyond : list byte) (path : string)
    (st : State) : string * State :=
  let name := rng.getFilename dev beyond 64 in
  (name, emit (File_createDirectories path name) st).

Definition getTempFilePath (env : Env) (srcDir srcFilename : string) (st : State)
  : string * State :=
  let srcPath := (srcDir ++ "/" ++ srcFilename)%string in
  let (number, st) := rng.getNext env st in
  let dstPath :=
    (temp env ++ encodeId number (default_padding env) ++ "_" ++ srcFilename)%string in
  let st := emit (File_copyTo srcPath dstPath) st in
  let st := emit (TemporaryFile_registerForDeletion dstPath) st in
  (dstPath, st).

(** ** Signal handlers *)

Definition signalLogPrefix (st : State) : State := emit Log_signalLogPrefix st.
Definition signalLog (message : string) (st : State) : State := emit (Log_signalLog message) st.
Definition syserror (message : string) (st : State) : State := emit (Log_syserror message) st.
Definition sleep (seconds : Z) (st : State) : State := emit (Sys_sleep seconds) st.

(** [sigaction(signo, &action, NULL)] with [action.sa_handler = handler].
    Every call of the file has [sigemptyset(&action.sa_mask)] and
    [action.sa_flags = 0] in front of it: the dispositions keep the handler,
    and what that mask and those flags mean for a handler that runs is in
    [blocked] below. *)
Definition sigaction (signo : Z) (handler : sighandler) (st : State) : State :=
  emit (Sys_sigaction signo handler) (with_sigactions (<[signo := handler]> (sigactions st)) st).

(** [kill] of the process itself: the signal is pending until the system
    delivers it. *)
Definition kill (pid signo : Z) (st : State) : State :=
  emit (Sys_kill pid signo) (with_pending (pending st ++ [signo])%list st).

(** [backtrace(buffer, size)]: the innermost [size] return addresses. *)
Definition backtrace (env : Env) (size : Z) : list Z :=
  firstn (Z.to_nat size) (call_stack env).

(** [backtrace_symbols(buffer, n)]: one string for each address, or [NULL]. *)
Definition backtrace_symbols (env : Env) (buffer : list Z) : option (list string) :=
  if symbols_allocated env then Some (map (symbol env) buffer) else None.

(** [strlen] of a string that holds no NUL. *)
Definition strlen (s : string) : nat := String.length s.

Section Handlers.
Context `{Signum}.

Definition handleTerminationSignal (signal : Z) (st : State) : State :=
  if negb (TerminationFlag st) then
    let st := with_flag true st in
    let st := signalLogPrefix st in
    let st := signalLog " Termination signal received: " st in
    let st := signalLog (signalName signal) st in
    signalLog LF st
  else st.

Definition setTerminationSignals (st : State) : State :=
  let st := sigaction SIGTERM HandleTermination st in
  let st := sigaction SIGINT HandleTermination st in
  let st := sigaction SIGQUIT HandleTermination st in
  sigaction SIGHUP HandleTermination st.

(** The [for] loop that fills [ioVector] from slot [i] on: two entries
    for each symbol. *)
Fixpoint fill_ioVector (symbols : list string) (i : nat) (ioVector : list iovec)
  : list iovec :=
  match symbols with
  | [] => ioVector
  | sym :: rest =>
      let ioVector := <[(1 + i * 2 + 0)%nat := {| iov_base := sym; iov_len := strlen sym |}]> ioVector in
      let ioVector := <[(1 + i * 2 + 1)%nat := {| iov_base := LF; iov_len := 1 |}]> ioVector in
      fill_ioVector rest (S i) ioVector
  end.

(** The part of [handleFatalSignal] that writes the backtrace, from
    [char header[32]] to the end of [if (numSlots > 0)]. *)
Definition dumpBacktrace (env : Env) (st : State) : State :=
  let header := ("Backtrace " ++ Cxx.to_string (getpid env) ++ ":" ++ LF)%string in
  let maxSlots := 50 in
  let backtraceBuffer := backtrace env maxSlots in
  let numSlots := Z.of_nat (length backtraceBuffer) in
  let st := emit (Sys_backtrace maxSlots) st in
  if 0 <? numSlots then
    let symbols := backtrace_symbols env backtraceBuffer in
    let st := emit (Sys_backtrace_symbols numSlots) st in
    match symbols with
    | Some symbols =>
        let ioVector :=
          repeat {| iov_base := EmptyString; iov_len := 0 |} (Z.to_nat (maxSlots * 2 + 1)) in
        let ioVector := <[0%nat := {| iov_base := header; iov_len := strlen header |}]> ioVector in
        let ioVector := fill_ioVector symbols 0 ioVector in
        let st := emit (Sys_writev STDERR_FILENO (firstn (Z.to_nat (numSlots * 2 + 1)) ioVector)) st in
        if writev_result env =? -1 then syserror "Failed to dump backtrace to stderr." st
        else st
    | None => st
    end
  else st.

Definition handleFatalSignal (env : Env) (signal : Z) (st : State) : State :=
  let st := signalLogPrefix st in
  let st := signalLog " Fatal signal received: " st in
  let st := signalLog (signalName signal) st in
  let st := signalLog LF st in
  let st :=
    if LOOL_DEBUG env then
      let st := signalLog (FatalGdbString st) st in
      sleep 30 st
    else st in
  let st := sigaction signal SIG_DFL st in
  let st := dumpBacktrace env st in
  (* let default handler process the signal *)
  kill (getpid env) signal st.

Definition setFatalSignals (env : Env) (st : State) : State :=
  let st := sigaction SIGSEGV HandleFatal st in
  let st := sigaction SIGBUS HandleFatal st in
  let st := sigaction SIGABRT HandleFatal st in
  let st := sigaction SIGILL HandleFatal st in
  let st := sigaction SIGFPE HandleFatal st in
  let pid := Cxx.to_string (getpid env) in
  let streamStr :=
    (LF ++ "Fatal signal! Attach debugger with:" ++ LF
     ++ "sudo gdb --pid=" ++ pid ++ LF ++ " or " ++ LF
     ++ "sudo gdb --q --n --ex 'thread apply all backtrace full' --batch --pid="
     ++ pid ++ LF)%string in
  with_gdb (Cxx.substr0 streamStr 256) st.

(** The system delivers [signo] and nothing else is delivered before the
    handler returns: it runs the handler the disposition names, to its
    end, or does what the signal does by default.  Deliveries that fall
    inside a run of the termination handler are those of [occur] below. *)
Definition deliver (env : Env) (signo : Z) (st : State) : State :=
  match sigactions st !! signo with
  | Some HandleTermination => handleTerminationSignal signo st
  | Some HandleFatal => handleFatalSignal env signo st
  | Some SIG_DFL | None => emit (Default_action signo) st
  end.

(** The first pending signal is delivered. *)
Definition deliver_pending (env : Env) (st : State) : State :=
  match pending st with
  | [] => st
  | signo :: rest => deliver env signo (with_pending rest st)
  end.

End Handlers.

(** ** Process identity *)

(** [std::to_string(Poco::Process::id()) + "/" + std::to_string(counter++)]
    on the static [std::atomic_int counter(0)]. *)
Definition UniqueId (env : Env) (st : State) : string * State :=
  ((Cxx.to_string (getpid env) ++ "/" ++ Cxx.to_string (counter st))%string,
   with_counter (Cxx.wrap_int (counter st + 1)) st).

(** The process after [k] calls of [UniqueId]. *)
Definition after_UniqueIds (env : Env) (k : N) (st : State) : State :=
  N.iter k (fun st => snd (UniqueId env st)) st.

(** What call number [k] (from zero) of [UniqueId] returns in a process
    that makes these calls from its start. *)
Definition UniqueId_call (env : Env) (k : N) : string :=
  fst (UniqueId env (after_UniqueIds env k (start env))).

(** The value of the counter that call number [k] reads. *)
Definition counter_at (env : Env) (k : N) : Z :=
  counter (after_UniqueIds env k (start env)).

(** ** The module as a whole *)

(** A call of a function of the file that works on the variables of the
    process, or the delivery of a signal. *)
Inductive call :=
| Call_reseed
| Call_getNext
| Call_createRandomDir (dev : nat -> byte) (beyond : list byte) (path : string)
| Call_getTempFilePath (srcDir srcFilename : string)
| Call_setTerminationSignals
| Call_setFatalSignals
| Call_UniqueId
| Call_handleTerminationSignal (signal : Z)
| Call_handleFatalSignal (signal : Z)
| Signal_delivered (signo : Z)
| Pending_delivered.

Section Calls.
Context `{Signum}.

Definition exec (env : Env) (c : call) (st : State) : State :=
  match c with
  | Call_reseed => rng.reseed env st
  | Call_getNext => snd (rng.getNext env st)
  | Call_createRandomDir dev beyond path => snd (createRandomDir dev beyond path st)
  | Call_getTempFilePath srcDir srcFilename => snd (getTempFilePath env srcDir srcFilename st)
  | Call_setTerminationSignals => setTerminationSignals st
  | Call_setFatalSignals => setFatalSignals env st
  | Call_UniqueId => snd (UniqueId env st)
  | Call_handleTerminationSignal signal => handleTerminationSignal signal st
  | Call_handleFatalSignal signal => handleFatalSignal env signal st
  | Signal_delivered signo => deliver env signo st
  | Pending_delivered => deliver_pending env st
  end.

Definition exec_all (env : Env) (cs : list call) (st : State) : State :=
  fold_left (fun st c => exec env c st) cs st.

End Calls.

(** ** Signals delivered while the termination handler runs

    [setTerminationSignals] installs the handler with an empty [sa_mask]
    and with [sa_flags = 0]: while the handler runs for a signal the system
    holds that signal back, and no other.  Any other signal can be
    delivered between two steps of the handler: its handler runs first,
    and the run that was interrupted goes on when it returns.  The flag is
    a plain [volatile bool]: the test of line 208 and the assignment of
    line 210 are two steps.  The machine is that of the thread the signals
    are delivered to: its runs of the handler nest. *)

(** Where a run of [handleTerminationSignal] stands: in front of one of
    its steps. *)
Inductive handler_pc :=
| At_test         (* [if (!TerminationFlag)] *)
| At_store        (* [TerminationFlag = true] *)
| At_prefix       (* [Log::signalLogPrefix()] *)
| At_text         (* [Log::signalLog(" Termination signal received: ")] *)
| At_name         (* [Log::signalLog(signalName(signal))] *)
| At_newline.     (* [Log::signalLog("\n")] *)

(** A run of the handler in progress: the signal it was called for and
    where it stands. *)
Record activation := { act_signal : Z; act_pc : handler_pc }.

(** The runs in progress, the innermost first, and the process. *)
Record Handling := { running : list activation; proc : State }.

(** What happens next: the system is to deliver a signal, or the
    innermost run does its next step. *)
Inductive occurrence :=
| Delivers (signo : Z)
| Resumes.

Section Interrupts.
Context `{Signum}.

(** One step of a run: where it stands afterwards, [None] when the
    handler has returned, and the process. *)
Definition handler_step (a : activation) (st : State) : option handler_pc * State :=
  match act_pc a with
  | At_test => if negb (TerminationFlag st) then (Some At_store, st) else (None, st)
  | At_store => (Some At_prefix, with_flag true st)
  | At_prefix => (Some At_text, signalLogPrefix st)
  | At_text => (Some At_name, signalLog " Termination signal received: " st)
  | At_name => (Some At_newline, signalLog (signalName (act_signal a)) st)
  | At_newline => (None, signalLog LF st)
  end.

(** A signal is held back while a run of the handler for it is in
    progress ([sa_flags] has no [SA_NODEFER]); the mask adds no other. *)
Definition blocked (signo : Z) (m : Handling) : bool :=
  bool_decide (signo ∈ map act_signal (running m)).

(** A signal held back is not delivered now: it waits, and its delivery
    is an occurrence of later.  A signal with the termination handler
    begins a run of it, inside the runs in progress.  Any other is
    delivered as in [deliver]. *)
Definition occur (env : Env) (m : Handling) (o : occurrence) : Handling :=
  match o with
  | Delivers signo =>
      if blocked signo m then m
      else
        match sigactions (proc m) !! signo with
        | Some HandleTermination =>
            {| running := {| act_signal := signo; act_pc := At_test |} :: running m;
               proc := proc m |}
        | _ => {| running := running m; proc := deliver env signo (proc m) |}
        end
  | Resumes =>
      match running m with
      | [] => m
      | a :: outer =>
          let (next, st) := handler_step a (proc m) in
          {| running :=
               match next with
               | Some pc => {| act_signal := act_signal a; act_pc := pc |} :: outer
               | None => outer
               end;
             proc := st |}
      end
  end.

Definition occur_all (env : Env) (os : list occurrence) (m : Handling) : Handling :=
  fold_left (occur env) os m.

End Interrupts.

(** ** Text: [replace], [formatLinesForLog], [getMemoryUsage] *)

(** [s.find(a)]: the first position at which [a] begins in [s]; the
    empty string begins at position zero of every string. *)
Fixpoint find_string (a s : string) : option nat :=
  if String.prefix a s then Some 0%nat
  else match s with
       | EmptyString => None
       | String _ r => option_map S (find_string a r)
       end.

Fixpoint drop_string (n : nat) (s : string) : string :=
  match n, s with
  | S m, String _ r => drop_string m r
  | _, _ => s
  end.

(** [s.replace(pos, n, b)] for a position inside [s], as [find] gives. *)
Fixpoint replace_at (pos n : nat) (b s : string) : string :=
  match pos, s with
  | O, _ => (b ++ drop_string n s)%string
  | S p, String c r => String c (replace_at p n b r)
  | S p, EmptyString => b
  end.

(** [Util::replace]: the loop
    [while ((pos = result.find(a)) != npos) result = result.replace(pos, a.size(), b)].
    Every round of the loop takes one unit of [fuel]; [None] says that the
    loop is still running when the fuel is used up. *)
Fixpoint replace (fuel : nat) (result a b : string) : option string :=
  match find_string a result with
  | None => Some result
  | Some pos =>
      match fuel with
      | O => None
      | S f => replace f (replace_at pos (String.length a) b result) a b
      end
  end.

(** [s.back()] *)
Fixpoint back (s : string) : option ascii :=
  match s with
  | EmptyString => None
  | String c EmptyString => Some c
  | String _ r => back r
  end.

Definition formatLinesForLog (fuel : nat) (s : string) : option string :=
  let n := String.length s in
  let r :=
    if (0 <? n)%nat && (match back s with Some c => Ascii.eqb c (ascii_of_nat 10) | None => false end)
    then Cxx.substr0 s (n - 1)
    else s in
  replace fuel r LF " / ".

(** [std::stoi]: white space, a sign, decimal digits; [None] when it
    throws, for want of a digit or for a value that is no [int]. *)
Definition dec_val (c : ascii) : option Z :=
  let n := Z.of_nat (nat_of_ascii c) in
  if (48 <=? n) && (n <=? 57) then Some (n - 48) else None.

Fixpoint read_dec (s : string) (acc : Z) : Z :=
  match s with
  | String c r =>
      match dec_val c with
      | Some d => read_dec r (10 * acc + d)
      | None => acc
      end
  | EmptyString => acc
  end.

Definition stoi (s : string) : option Z :=
  let (negative, digits) := Cxx.read_sign (Cxx.skip_ws s) in
  match digits with
  | String c _ =>
      match dec_val c with
      | Some _ =>
          let v := if negative then - read_dec digits 0 else read_dec digits 0 in
          if (Cxx.INT_MIN <=? v) && (v <=? Cxx.INT_MAX) then Some v else None
      | None => None
      end
  | EmptyString => None
  end.

(** A [char] buffer taken as a C string: what is in front of its first
    NUL. *)
Fixpoint c_string (buffer : string) : string :=
  match buffer with
  | EmptyString => EmptyString
  | String c r => if Ascii.eqb c Ascii.zero then EmptyString else String c (c_string r)
  end.

(** [fgets(s, n, stream)] with [room = n - 1]: it reads characters of the
    stream until there is no room, or the stream is at its end, or a
    newline has been read.  What it has read, and the stream behind it. *)
Fixpoint fgets (room : nat) (stream : string) : string * string :=
  match room, stream with
  | S k, String c behind =>
      if Ascii.eqb c (ascii_of_nat 10) then (String c EmptyString, behind)
      else let (read, behind) := fgets k behind in (String c read, behind)
  | _, _ => (EmptyString, stream)
  end.

(** [char cmdBuffer[1024]] *)
Definition sizeof_cmdBuffer : nat := 1024.

(** The loop
    [while (fgets(cmdBuffer, sizeof(cmdBuffer) - 1, fp) != nullptr) sResponse += cmdBuffer]:
    [fgets] returns [nullptr] at the end of the stream, and [+=] appends the
    buffer as a C string.  Every round reads a character at least: [rounds]
    is a bound on the rounds, and the length of the stream is one. *)
Fixpoint read_response (rounds : nat) (fp sResponse : string) : string :=
  match rounds, fp with
  | S k, String _ _ =>
      let (cmdBuffer, fp) := fgets (sizeof_cmdBuffer - 1 - 1) fp in
      read_response k fp (sResponse ++ c_string cmdBuffer)
  | _, _ => sResponse
  end.

(** [getMemoryUsage]: [popen cmd] is what the command prints, or [None]
    when [popen] returns no stream.  The result comes with the warnings
    logged. *)
Definition getMemoryUsage (popen : string -> option string) (nPid : Z) : Z * list string :=
  let cmd := ("ps o rss= -p " ++ Cxx.to_string nPid)%string in
  match popen cmd with
  | None => (0, [])
  | Some fp =>
      let sResponse := read_response (String.length fp) fp EmptyString in
      match stoi sResponse with
      | Some nMem => (nMem, [])
      | None => (-1, ["Trying to find memory of invalid/dead PID"])
      end
  end.

(** [displayVersionInfo]: the line written to [std::cout], for the
    version and the hash of [config.h]; the hash is cut to eight
    characters. *)
Definition displayVersionInfo (LOOLWSD_VERSION LOOLWSD_VERSION_HASH app : string) : string :=
  let hash := Cxx.substr0 LOOLWSD_VERSION_HASH (Nat.min 8 (String.length LOOLWSD_VERSION_HASH)) in
  (app ++ " " ++ LOOLWSD_VERSION ++ " - " ++ hash ++ LF)%string.

(** [k] calls of [getNext], one after the other: what they return. *)
Fixpoint getNext_times (env : Env) (k : nat) (st : State) : list Z * State :=
  match k with
  | O => ([], st)
  | S j =>
      let (v, st1) := rng.getNext env st in
      let (vs, st2) := getNext_times env j st1 in
      (v :: vs, st2)
  end.

(** [s] without its last character when that is a newline: the [r] of
    [formatLinesForLog]. *)
Definition chomp (s : string) : string :=
  match back s with
  | Some c => if Ascii.eqb c (ascii_of_nat 10) then Cxx.substr0 s (String.length s - 1) else s
  | None => s
  end.

(** The text with every [c] replaced by [b], in one pass. *)
Fixpoint subst_char (c : ascii) (b s : string) : string :=
  match s with
  | EmptyString => EmptyString
  | String d r =>
      if Ascii.eqb d c then (b ++ subst_char c b r)%string else String d (subst_char c b r)
  end.

Fixpoint count_char (c : ascii) (s : string) : nat :=
  match s with
  | EmptyString => O
  | String d r => ((if Ascii.eqb d c then 1 else 0) + count_char c r)%nat
  end.

(** No decimal digit is at the head of [rest]. *)
Definition no_digit_ahead (rest : string) : Prop :=
  match rest with
  | String c _ => dec_val c = None
  | EmptyString => True
  end.

(** The characters the encoder has passed on after [k] bytes: four for
    each full group of three, and a line break after each 72. *)
Definition b64_length (k : Z) : Z := 4 * (k / 3) + 2 * (4 * (k / 3) / 72).

(** The encoder after [k] bytes written to it since it was made. *)
Definition encoded (k : Z) (b : Poco.Base64EncoderBuf) : Prop :=
  Poco._lineLength b = 72
  /\ Z.of_nat (length (Poco._group b)) = k mod 3
  /\ Poco._pos b = (4 * (k / 3)) mod 72
  /\ Z.of_nat (String.length (Poco._buf b)) = b64_length k.

(** Every character of [s] is one of [alphabet]. *)
Fixpoint all_in (alphabet s : string) : bool :=
  match s with
  | EmptyString => true
  | String c r => Cxx.occurs c alphabet && all_in alphabet r
  end.

(** The alphabet of a file name: that of the encoder with [_] for [/]. *)
Definition NAME_ALPHABET : string :=
  "ABCDEFGHIJKLMNOPQRSTUVWXYZabcdefghijklmnopqrstuvwxyz0123456789+_".

(** ** What the properties speak of *)

(** The bytes a [writev] of [iov] gathers: [iov_len] bytes from
    [iov_base], piece after piece.  A piece longer than its string takes
    bytes the string does not hold, the terminator and what lies behind
    it in memory: of such a vector there is no telling what is written,
    [None]. *)
Fixpoint gathered (iov : list iovec) : option string :=
  match iov with
  | [] => Some EmptyString
  | v :: rest =>
      if (iov_len v <=? strlen (iov_base v))%nat then
        match gathered rest with
        | Some written => Some (Cxx.substr0 (iov_base v) (iov_len v) ++ written)%string
        | None => None
        end
      else None
  end.

(** The lines of a backtrace: one for each symbol. *)
Definition lines (symbols : list string) : string :=
  fold_right (fun sym rest => (sym ++ LF ++ rest)%string) EmptyString symbols.

(** Modelled from the spec: [Log::signalLogPrefix] and [Log::signalLog]
    are in [Log.cpp]; the specification has the log lines of the handlers
    go to the standard error stream.  With the [writev] on its descriptor
    these are the calls that put text on that stream. *)
Definition writes_stderr (e : event) : bool :=
  match e with
  | Log_signalLogPrefix | Log_signalLog _ => true
  | Sys_writev fd _ => fd =? STDERR_FILENO
  | _ => false
  end.

Definition is_error (e : event) : bool :=
  match e with
  | Log_syserror _ => true
  | _ => false
  end.

Definition is_sigaction (e : event) : bool :=
  match e with
  | Sys_sigaction _ _ => true
  | _ => false
  end.

(** The calls of the backtrace dump. *)
Definition is_dump (e : event) : bool :=
  match e with
  | Sys_backtrace _ | Sys_backtrace_symbols _ | Sys_writev _ _ => true
  | _ => false
  end.

Definition is_sleep (e : event) : bool :=
  match e with
  | Sys_sleep _ => true
  | _ => false
  end.

Definition is_kill (e : event) : bool :=
  match e with
  | Sys_kill _ _ => true
  | _ => false
  end.

Definition is_writev (e : event) : bool :=
  match e with
  | Sys_writev _ _ => true
  | _ => false
  end.

(** The two entries of [ioVector] for a symbol. *)
Definition entries (sym : string) : list iovec :=
  [{| iov_base := sym; iov_len := strlen sym |}; {| iov_base := LF; iov_len := 1 |}].

(** The signals of [setTerminationSignals] and of [setFatalSignals]. *)
Definition termination_signals `{Signum} : list Z := [SIGTERM; SIGINT; SIGQUIT; SIGHUP].
Definition fatal_signals `{Signum} : list Z := [SIGSEGV; SIGBUS; SIGABRT; SIGILL; SIGFPE].

(** How many of the calls [cs] are calls of [UniqueId]. *)
Fixpoint UniqueId_calls (cs : list call) : Z :=
  match cs with
  | [] => 0
  | Call_UniqueId :: rest => 1 + UniqueId_calls rest
  | _ :: rest => UniqueId_calls rest
  end.

(** The log line of the termination handler. *)
Definition termination_line `{Signum} (signal : Z) : list event :=
  [Log_signalLogPrefix; Log_signalLog " Termination signal received: ";
   Log_signalLog (signalName signal); Log_signalLog LF].

(** The process with no run of the handler in progress. *)
Definition quiet (st : State) : Handling := {| running := []; proc := st |}.

(** The steps of one run of the handler that nothing interrupts. *)
Definition whole_run : list occurrence := repeat Resumes 6.

(** How many of the occurrences [os] are deliveries; one that is held
    back counts. *)
Fixpoint deliveries (os : list occurrence) : nat :=
  match os with
  | [] => O
  | Delivers _ :: rest => S (deliveries rest)
  | Resumes :: rest => deliveries rest
  end.

(** The occurrence delivers no signal but one that has the termination
    handler in [st]. *)
Definition of_termination (st : State) (o : occurrence) : Prop :=
  match o with
  | Delivers signo => sigactions st !! signo = Some HandleTermination
  | Resumes => True
  end.

(** The log calls that begin a line and that end one, and how many
    of each are among [es]. *)
Definition begins_line (e : event) : bool :=
  match e with
  | Log_signalLogPrefix => true
  | _ => false
  end.

Definition ends_line (e : event) : bool :=
  match e with
  | Log_signalLog message => String.eqb message LF
  | _ => false
  end.

Definition is_log (e : event) : bool :=
  match e with
  | Log_signalLogPrefix | Log_signalLog _ => true
  | _ => false
  end.

Definition lines_begun (es : list event) : nat := length (List.filter begins_line es).
Definition lines_ended (es : list event) : nat := length (List.filter ends_line es).

(** Runs by where they stand: not past the assignment; past the test and
    yet to begin their line; yet to begin a line, if they log one; inside
    their line; in front of the test. *)
Definition before_store (a : activation) : bool :=
  match act_pc a with
  | At_test | At_store => true
  | _ => false
  end.

Definition sure_to_log (a : activation) : bool :=
  match act_pc a with
  | At_store | At_prefix => true
  | _ => false
  end.

Definition yet_to_log (a : activation) : bool :=
  match act_pc a with
  | At_test | At_store | At_prefix => true
  | _ => false
  end.

Definition inside_line (a : activation) : bool :=
  match act_pc a with
  | At_text | At_name | At_newline => true
  | _ => false
  end.

Definition at_test (a : activation) : bool :=
  match act_pc a with
  | At_test => true
  | _ => false
  end.

(** How many of [l] satisfy [f]. *)
Definition count {A} (f : A -> bool) (l : list A) : nat := length (List.filter f l).

(** What holds of the process [m] reached from [st], in which the flag
    was clear and no run in progress, by occurrences of which [d] are
    deliveries and which have had the calls [logged] made. *)
Record reached (st : State) (d : nat) (logged : list event) (m : Handling) : Prop := {
  reached_proc :
    proc m = with_events_of (with_flag (TerminationFlag (proc m)) st) (events st ++ logged);
  reached_log : forallb is_log logged = true;
  reached_clear :
    TerminationFlag (proc m) = false ->
    logged = [] /\ forallb before_store (running m) = true /\ (running m = [] -> d = O);
  reached_set :
    TerminationFlag (proc m) = true ->
    (1 <= lines_begun logged + count sure_to_log (running m))%nat;
  reached_bound : (lines_begun logged + count yet_to_log (running m) <= d)%nat;
  reached_ended : lines_begun logged = (lines_ended logged + count inside_line (running m))%nat
}.

(** The call [c] made in [st] runs [handleTerminationSignal]. *)
Definition runs_termination_handler (c : call) (st : State) : bool :=
  match c with
  | Call_handleTerminationSignal _ => true
  | Signal_delivered signo =>
      match sigactions st !! signo with Some HandleTermination => true | _ => false end
  | Pending_delivered =>
      match pending st with
      | signo :: _ =>
          match sigactions st !! signo with Some HandleTermination => true | _ => false end
      | [] => false
      end
  | _ => false
  end.

(** A process to try the functions on. *)
Definition env0 : Env :=
  {| getpid := 4242; LOOL_DEBUG := false;
     call_stack := [4198400; 4198912; 4199424];
     symbol := fun a => ("./loolwsd() [0x" ++ Cxx.hex a ++ "]")%string;
     symbols_allocated := true; writev_result := 0;
     rd_entropy := true; rd_at_start := 2016; clock_at_start := 0; rd := 2016; clock := 0;
     mt_output := fun seed i => seed + Z.of_N i;
     temp := "/tmp/"; default_padding := 5 |}.

(** The same with no frame to capture, and with no memory for the symbols. *)
Definition env_no_frames : Env :=
  {| getpid := getpid env0; LOOL_DEBUG := LOOL_DEBUG env0; call_stack := [];
     symbol := symbol env0; symbols_allocated := true; writev_result := 0;
     rd_entropy := rd_entropy env0; rd_at_start := rd_at_start env0;
     clock_at_start := clock_at_start env0; rd := rd env0; clock := clock env0;
     mt_output := mt_output env0; temp := temp env0;
     default_padding := default_padding env0 |}.

Definition env_no_symbols : Env :=
  {| getpid := getpid env0; LOOL_DEBUG := true; call_stack := call_stack env0;
     symbol := symbol env0; symbols_allocated := false; writev_result := 0;
     rd_entropy := rd_entropy env0; rd_at_start := rd_at_start env0;
     clock_at_start := clock_at_start env0; rd := rd env0; clock := clock env0;
     mt_output := mt_output env0; temp := temp env0;
     default_padding := default_padding env0 |}.

(** The same with a device that gives another value when [reseed] asks. *)
Definition env_reseed : Env :=
  {| getpid := getpid env0; LOOL_DEBUG := LOOL_DEBUG env0; call_stack := call_stack env0;
     symbol := symbol env0; symbols_allocated := true; writev_result := 0;
     rd_entropy := rd_entropy env0; rd_at_start := rd_at_start env0;
     clock_at_start := clock_at_start env0; rd := 2024; clock := 1;
     mt_output := mt_output env0; temp := temp env0;
     default_padding := default_padding env0 |}.

Example encodeId_255 : encodeId 255 5 = "000ff".
Proof. reflexivity. Qed.

Example encodeId_big : encodeId 4294967295 5 = "ffffffff".
Proof. reflexivity. Qed.

Example encodeId_zero : encodeId 0 0 = "0" /\ encodeId 0 (-3) = "0" /\ encodeId 2748 3 = "abc".
Proof. repeat split. Qed.

Example decodeId_samples :
  decodeId "000ff" = 255 /\ decodeId "ffffffff" = 4294967295
  /\ decodeId EmptyString = 0 /\ decodeId "1ffffffff" = 4294967295 /\ decodeId "12xy" = 18.
Proof. repeat split. Qed.

Example getFilename_sample :
  rng.getFilename (fun _ => "a"%byte) [] 6 = "YWFhYW" /\
  rng.getFilename (fun _ => xff) [] 8 = "________" /\
  rng.getB64String (fun _ => xff) [] 8 = "////////".
Proof. repeat split. Qed.

Example handleFatalSignal_SIGSEGV :
  events (@handleFatalSignal linux env0 11 (start env0))
  = [Log_signalLogPrefix; Log_signalLog " Fatal signal received: ";
     Log_signalLog "SIGSEGV"; Log_signalLog LF;
     Sys_sigaction 11 SIG_DFL; Sys_backtrace 50; Sys_backtrace_symbols 3;
     Sys_writev 2
       ({| iov_base := ("Backtrace 4242:" ++ LF)%string; iov_len := 16 |}
        :: entries "./loolwsd() [0x401000]" ++ entries "./loolwsd() [0x401200]"
        ++ entries "./loolwsd() [0x401400]")%list;
     Sys_kill 4242 11].
Proof. reflexivity. Qed.

Example handleFatalSignal_no_symbols :
  events (@handleFatalSignal linux env_no_symbols 7 (start env_no_symbols))
  = [Log_signalLogPrefix; Log_signalLog " Fatal signal received: ";
     Log_signalLog "SIGBUS"; Log_signalLog LF;
     Log_signalLog EmptyString; Sys_sleep 30;
     Sys_sigaction 7 SIG_DFL; Sys_backtrace 50; Sys_backtrace_symbols 3;
     Sys_kill 4242 7].
Proof. reflexivity. Qed.

Example setFatalSignals_installs :
  sigactions (@setFatalSignals linux env0 (start env0)) !! 11 = Some HandleFatal
  /\ sigactions (@setFatalSignals linux env0 (start env0)) !! 15 = None
  /\ (String.length (FatalGdbString (@setFatalSignals linux env0 (start env0))) < 256)%nat.
Proof. repeat split. vm_compute. lia. Qed.

Example getTempFilePath_sample :
  fst (getTempFilePath env0 "/srv" "a.odt" (start env0)) = "/tmp/007e0_a.odt".
Proof. reflexivity. Qed.

Example UniqueId_first : fst (UniqueId env0 (start env0)) = "4242/0".
Proof. reflexivity. Qed.

Example getNext_locks :
  rng.getNext env0 (start env0)
  = (2016, with_rng {| mt_seed := 2016; mt_drawn := 1 |} (start env0)).
Proof. reflexivity. Qed.

Example replace_samples :
  replace 5 "a-b-c" "-" "--" = None
  /\ replace 2 "a-b-c" "-" "+" = Some "a+b+c"
  /\ replace 1 "a-b-c" "-" "+" = None
  /\ replace 3 "xabab" "ab" "b" = Some "xbb"
  /\ replace 9 "abc" EmptyString "z" = None.
Proof. repeat split. Qed.

Example formatLinesForLog_sample :
  formatLinesForLog 2 ("one" ++ LF ++ "two" ++ LF ++ "three" ++ LF) = Some "one / two / three"
  /\ formatLinesForLog 2 ("one" ++ LF ++ LF) = Some "one / ".
Proof. repeat split. Qed.

Example getMemoryUsage_samples :
  getMemoryUsage (fun _ => Some (" 10240" ++ LF)%string) 77 = (10240, [])
  /\ getMemoryUsage (fun _ => Some EmptyString) 77
     = (-1, ["Trying to find memory of invalid/dead PID"])
  /\ getMemoryUsage (fun _ => None) 77 = (0, [])
  /\ getMemoryUsage (fun cmd => Some cmd) 77 = (-1, ["Trying to find memory of invalid/dead PID"]).
Proof. repeat split. Qed.

Example reseed_takes_new_seed :
  _rng (start env_reseed) = {| mt_seed := 2016; mt_drawn := 0 |}
  /\ _rng (rng.reseed env_reseed (start env_reseed)) = {| mt_seed := 2024; mt_drawn := 0 |}.
Proof. split; reflexivity. Qed.

Example gathered_pieces :
  gathered [{| iov_base := "ab"; iov_len := 1 |}; {| iov_base := LF; iov_len := 1 |}]
  = Some ("a" ++ LF)%string
  /\ gathered [{| iov_base := "ab"; iov_len := 3 |}; {| iov_base := LF; iov_len := 1 |}] = None.
Proof. split; reflexivity. Qed.

Example handleTerminationSignal_nested :
  let installed := @setTerminationSignals linux (start env0) in
  @occur_all linux env0 [Delivers 15; Resumes; Delivers 15; Delivers 2; Resumes; Resumes]
    (quiet installed)
  = {| running := [{| act_signal := 2; act_pc := At_prefix |};
                   {| act_signal := 15; act_pc := At_store |}];
       proc := with_flag true installed |}.
Proof. vm_compute. reflexivity. Qed.

Example getMemoryUsage_NUL :
  getMemoryUsage
    (fun _ => Some ("12" ++ String Ascii.zero " 34" ++ LF ++ "56" ++ LF)%string) 77
  = (1256, []).
Proof. reflexivity. Qed.

Example displayVersionInfo_sample :
  displayVersionInfo "1.8.0" "0123456789abcdef" "loolwsd" = ("loolwsd 1.8.0 - 01234567" ++ LF)%string.
Proof. reflexivity. Qed.

Example signalName_linux :
  @signalName linux 11 = "SIGSEGV" /\ @signalName linux 29 = "SIGPOLL"
  /\ @signalName linux 0 = "unknown" /\ @signalName linux 64 = "unknown".
Proof. repeat split. Qed.

(** ** Strings *)

Lemma append_assoc (s t u : string) : ((s ++ t) ++ u = s ++ (t ++ u))%string.
Proof. induction s as [| c r IH]; simpl; [reflexivity | rewrite IH; reflexivity]. Qed.

Lemma append_nil_r (s : string) : (s ++ EmptyString)%string = s.
Proof. induction s as [| c r IH]; simpl; [reflexivity | rewrite IH; reflexivity]. Qed.

(** ** Round trip of the identifiers *)

Section RoundTrip.
Import Cxx.

Lemma hex_val_digit d : 0 <= d < 16 -> hex_val (hex_digit d) = Some d.
Proof.
  intros Hd.
  assert (Hc : d = 0 \/ d = 1 \/ d = 2 \/ d = 3 \/ d = 4 \/ d = 5 \/ d = 6 \/ d = 7 \/
               d = 8 \/ d = 9 \/ d = 10 \/ d = 11 \/ d = 12 \/ d = 13 \/ d = 14 \/ d = 15)
    by lia.
  repeat (destruct Hc as [-> | Hc]; [reflexivity |]). subst d. reflexivity.
Qed.

(** A hexadecimal digit is no white space, no sign and no [x]. *)
Lemma hex_val_plain c :
  hex_val c <> None ->
  is_space c = false /\ c <> "-"%char /\ c <> "+"%char /\ c <> "x"%char /\ c <> "X"%char.
Proof.
  destruct c as [[] [] [] [] [] [] [] []]; vm_compute; intros Hc;
    try (exfalso; apply Hc; reflexivity); repeat split; discriminate.
Qed.

Lemma all_hex_app s t : all_hex (s ++ t) = all_hex s && all_hex t.
Proof.
  induction s as [| c r IH]; simpl; [reflexivity |].
  destruct (hex_val c); [exact IH | reflexivity].
Qed.

Lemma read_hex_app s t acc :
  all_hex s = true -> read_hex (s ++ t) acc = read_hex t (read_hex s acc).
Proof.
  revert acc. induction s as [| c r IH]; intros acc Hs; simpl in *; [reflexivity |].
  destruct (hex_val c); [apply IH; exact Hs | discriminate].
Qed.

Lemma all_hex_fill k : all_hex (fill k "0") = true.
Proof. induction k as [| k IH]; simpl; [reflexivity | exact IH]. Qed.

Lemma read_hex_fill k : read_hex (fill k "0") 0 = 0.
Proof. induction k as [| k IH]; simpl; [reflexivity | exact IH]. Qed.

(** [hex_aux] puts the digits of [n] in front of [acc]: they are digits,
    there is at least one, and read back they give [n]. *)
Lemma hex_aux_spec fuel :
  forall n acc, 0 <= n < 16 ^ Z.of_nat fuel -> (0 < fuel)%nat ->
    exists d, hex_aux fuel n acc = (d ++ acc)%string /\ d <> EmptyString
              /\ all_hex d = true /\ read_hex d 0 = n.
Proof.
  induction fuel as [| f IH]; intros n acc Hn Hf; [lia |].
  simpl hex_aux.
  assert (Hm : 0 <= n mod 16 < 16) by (apply Z.mod_pos_bound; lia).
  destruct (n <? 16) eqn:Hlt.
  - apply Z.ltb_lt in Hlt.
    exists (String (hex_digit (n mod 16)) EmptyString). simpl.
    rewrite (hex_val_digit _ Hm).
    repeat split; [discriminate |]. rewrite Z.mod_small by lia. lia.
  - apply Z.ltb_ge in Hlt.
    assert (Hf' : (0 < f)%nat).
    { destruct f; [| lia]. simpl in Hn. lia. }
    destruct (IH (n / 16) (String (hex_digit (n mod 16)) acc)) as (d & Hd & Hne & Hall & Hval);
      [| exact Hf' |].
    { split; [apply Z.div_pos; lia |].
      apply Z.div_lt_upper_bound; [lia |].
      rewrite Nat2Z.inj_succ, Z.pow_succ_r in Hn by lia. lia. }
    exists (d ++ String (hex_digit (n mod 16)) EmptyString)%string.
    rewrite Hd. repeat split.
    + rewrite append_assoc. reflexivity.
    + destruct d; [congruence | discriminate].
    + rewrite all_hex_app, Hall. simpl. rewrite (hex_val_digit _ Hm). reflexivity.
    + rewrite read_hex_app by exact Hall. rewrite Hval. simpl.
      rewrite (hex_val_digit _ Hm). pose proof (Z.div_mod n 16). lia.
Qed.

Lemma hex_spec n :
  0 <= n ->
  exists d, hex n = d /\ d <> EmptyString /\ all_hex d = true /\ read_hex d 0 = n.
Proof.
  intros Hn. unfold hex.
  destruct (hex_aux_spec (S (Z.to_nat (Z.log2 n))) n EmptyString) as (d & Hd & H1 & H2 & H3).
  - split; [exact Hn |].
    rewrite Nat2Z.inj_succ, Z2Nat.id by apply Z.log2_nonneg.
    destruct (Z.eq_dec n 0) as [-> | Hnz]; [simpl; lia |].
    pose proof (Z.log2_spec n ltac:(lia)) as [_ Hlog].
    eapply Z.lt_le_trans; [exact Hlog |].
    pose proof (Z.log2_nonneg n).
    transitivity (2 ^ (4 * Z.succ (Z.log2 n))).
    + apply Z.pow_le_mono_r; lia.
    + rewrite Z.pow_mul_r by lia. change (2 ^ 4) with 16. lia.
  - lia.
  - exists d. rewrite Hd, append_nil_r. auto.
Qed.

(** A run of digits is read as its value, cut at the largest [unsigned]. *)
Lemma get_hex_digits s :
  s <> EmptyString -> all_hex s = true ->
  get_hex s = if read_hex s 0 >? UINT_MAX then UINT_MAX else read_hex s 0.
Proof.
  intros Hne Hall. destruct s as [| c r]; [congruence |].
  simpl in Hall. destruct (hex_val c) as [d |] eqn:Hc; [| discriminate].
  destruct (hex_val_plain c) as (Hsp & Hminus & Hplus & _); [congruence |].
  unfold get_hex. simpl skip_ws. rewrite Hsp.
  assert (Hsign : read_sign (String c r) = (false, String c r)).
  { unfold read_sign. destruct c as [[] [] [] [] [] [] [] []]; try reflexivity; congruence. }
  rewrite Hsign.
  assert (Hpre : read_prefix (String c r) = String c r).
  { destruct r as [| c' r']; [destruct c as [[] [] [] [] [] [] [] []]; reflexivity |].
    simpl in Hall. destruct (hex_val c') eqn:Hc'; [| discriminate].
    destruct (hex_val_plain c') as (_ & _ & _ & Hx & HX); [congruence |].
    unfold read_prefix.
    destruct c as [[] [] [] [] [] [] [] []]; try reflexivity;
      destruct c' as [[] [] [] [] [] [] [] []]; try reflexivity; congruence. }
  rewrite Hpre. simpl starts_with_digit. rewrite Hc. reflexivity.
Qed.

End RoundTrip.

(** C10. [decodeId] reads back what [encodeId] wrote: for every
    [unsigned] number [n] and every padding [p],
    [decodeId (encodeId n p) = n]. *)
Theorem decodeId_encodeId (n p : Z) :
  0 <= n <= Cxx.UINT_MAX -> decodeId (encodeId n p) = n.
Proof.
  intros Hn. unfold decodeId, encodeId, Cxx.put_hex.
  destruct (hex_spec n) as (d & -> & Hne & Hall & Hval); [lia |].
  set (k := Z.to_nat _).
  rewrite get_hex_digits.
  - rewrite read_hex_app by apply all_hex_fill.
    rewrite read_hex_fill, Hval.
    destruct (n >? Cxx.UINT_MAX) eqn:Hgt; [| reflexivity].
    apply Z.gtb_lt in Hgt. lia.
  - destruct k; simpl; [exact Hne | discriminate].
  - rewrite all_hex_app, all_hex_fill, Hall. reflexivity.
Qed.

Lemma decodeId_encodeId_witness :
  0 <= 48879 <= Cxx.UINT_MAX /\ decodeId (encodeId 48879 8) = 48879.
Proof.
  split; [vm_compute; split; discriminate |].
  apply (decodeId_encodeId 48879 8). vm_compute; split; discriminate.
Defined.

(** ** File names *)

Section FileNames.
Import Cxx.

Lemma length_substr0 s n : (String.length (substr0 s n) <= n)%nat.
Proof.
  revert s. induction n as [| n IH]; intros [| c r]; simpl; try lia.
  specialize (IH r). lia.
Qed.

Lemma occurs_replace_char a b s :
  a <> b -> occurs a (replace_char a b s) = false.
Proof.
  intros Hab. induction s as [| c r IH]; simpl; [reflexivity |].
  rewrite IH, orb_false_r.
  destruct (Ascii.eqb c a) eqn:Hc; [| exact Hc].
  apply Ascii.eqb_neq. congruence.
Qed.

Lemma occurs_substr0 a s n : occurs a s = false -> occurs a (substr0 s n) = false.
Proof.
  revert s. induction n as [| n IH]; intros [| c r] Hs; simpl in *; try reflexivity.
  apply orb_false_iff in Hs as [Hc Hr]. rewrite Hc. simpl. apply IH, Hr.
Qed.

(** The two halves of the contract that hold on every input: the name
    never has more than [length] characters and never holds a [/]. *)
Lemma getFilename_at_most dev beyond length :
  (String.length (rng.getFilename dev beyond length) <= length)%nat.
Proof. apply length_substr0. Qed.

Lemma getFilename_no_slash dev beyond length :
  occurs "/" (rng.getFilename dev beyond length) = false.
Proof.
  unfold rng.getFilename. apply occurs_substr0, occurs_replace_char. discriminate.
Qed.

End FileNames.

(** C1. The name is to have exactly [length] characters.  It has not
    when a NUL is among the random bytes: asked for four characters with
    the bytes [41 00 41 41] from the device, [getFilename] writes the one
    byte in front of the NUL to the encoder, which holds it back as the
    beginning of a group, and the name is empty; so is the name of the
    directory of [createRandomDir] when the first byte is NUL.  What
    follows the vector in memory plays no part. *)
Theorem getFilename_cut_at_NUL (beyond : list byte) :
  rng.getFilename (fun i => match i with 1%nat => x00 | _ => x41 end) beyond 4 = EmptyString
  /\ (forall st, fst (createRandomDir (fun _ => x00) beyond "/tmp" st) = EmptyString).
Proof. split; reflexivity. Qed.

(** ** Signal names *)

Section SignalNames.
Context `{Signum}.

Lemma find_case_In (cases : list (Z * string)) signo name :
  NoDup (map fst cases) -> In (signo, name) cases ->
  List.find (fun c => fst c =? signo) cases = Some (signo, name).
Proof.
  induction cases as [| [k v] rest IH]; intros Hnd Hin; [destruct Hin |].
  simpl in *. apply NoDup_cons in Hnd as [Hk Hrest].
  destruct Hin as [Heq | Hin].
  - injection Heq as -> ->. rewrite Z.eqb_refl. reflexivity.
  - destruct (k =? signo) eqn:Hks.
    + apply Z.eqb_eq in Hks. subst k. exfalso. apply Hk.
      apply list_elem_of_In, in_map_iff. exists (signo, name). auto.
    + apply IH; assumption.
Qed.

Lemma find_case_None (cases : list (Z * string)) signo :
  signo ∉ map fst cases -> List.find (fun c => fst c =? signo) cases = None.
Proof.
  induction cases as [| [k v] rest IH]; intros Hnot; [reflexivity |].
  simpl in *. apply not_elem_of_cons in Hnot as [Hne Hrest].
  destruct (k =? signo) eqn:Hks; [apply Z.eqb_eq in Hks; congruence |].
  apply IH, Hrest.
Qed.

Lemma signalName_case signo name :
  NoDup case_labels -> In (signo, name) signal_cases -> signalName signo = name.
Proof.
  intros Hnd Hin. unfold signalName.
  rewrite (find_case_In _ _ _ Hnd Hin). reflexivity.
Qed.

(** C7. With the case labels of the [switch] distinct, as the language
    asks, [signalName] gives each signal of the termination set and of
    the fatal set its name in capitals, and ["unknown"] to every number
    that is no case label. *)
Theorem signalName_canonical :
  NoDup case_labels ->
  (signalName SIGHUP = "SIGHUP" /\ signalName SIGINT = "SIGINT"
   /\ signalName SIGQUIT = "SIGQUIT" /\ signalName SIGTERM = "SIGTERM")
  /\ (signalName SIGSEGV = "SIGSEGV" /\ signalName SIGBUS = "SIGBUS"
      /\ signalName SIGABRT = "SIGABRT" /\ signalName SIGILL = "SIGILL"
      /\ signalName SIGFPE = "SIGFPE")
  /\ forall signo, signo ∉ case_labels -> signalName signo = "unknown".
Proof.
  intros Hnd.
  repeat split;
    try (apply (signalName_case _ _ Hnd); unfold signal_cases, CASE; simpl; tauto).
  intros signo Hnot. unfold signalName. rewrite find_case_None by exact Hnot. reflexivity.
Qed.

End SignalNames.

Lemma signalName_canonical_witness :
  NoDup (@case_labels linux)
  /\ @signalName linux 11 = "SIGSEGV"
  /\ @signalName linux 77 = "unknown".
Proof.
  assert (Hnd : NoDup (@case_labels linux)) by (apply (bool_decide_unpack _); vm_compute; exact I).
  split; [exact Hnd |].
  pose proof (@signalName_canonical linux Hnd) as (_ & (Hsegv & _) & Hunknown).
  split; [exact Hsegv |].
  apply Hunknown. apply (bool_decide_unpack _). vm_compute. exact I.
Defined.

(** ** The termination flag *)

Section Termination.
Context `{Signum}.

Lemma handleTerminationSignal_first signal st :
  TerminationFlag st = false ->
  handleTerminationSignal signal st
  = with_events_of (with_flag true st) (events st ++ termination_line signal).
Proof.
  intros Hflag. unfold handleTerminationSignal. rewrite Hflag. simpl.
  unfold signalLog, signalLogPrefix, emit, with_events_of, termination_line. simpl.
  repeat rewrite <- app_assoc. reflexivity.
Qed.

Lemma handleTerminationSignal_again signal st :
  TerminationFlag st = true -> handleTerminationSignal signal st = st.
Proof. intros Hflag. unfold handleTerminationSignal. rewrite Hflag. reflexivity. Qed.

Lemma handleTerminationSignal_sets signal st :
  TerminationFlag (handleTerminationSignal signal st) = true.
Proof.
  unfold handleTerminationSignal.
  destruct (TerminationFlag st) eqn:Hflag; [exact Hflag | reflexivity].
Qed.

(** After [setTerminationSignals] the delivery of each of the four
    signals runs the handler. *)
Lemma deliver_monitored env signo st :
  signo ∈ [SIGTERM; SIGINT; SIGQUIT; SIGHUP] ->
  deliver env signo (setTerminationSignals st)
  = handleTerminationSignal signo (setTerminationSignals st).
Proof.
  intros Hin. unfold deliver.
  assert (Hlookup : sigactions (setTerminationSignals st) !! signo = Some HandleTermination).
  { unfold setTerminationSignals, sigaction. simpl.
    rewrite !elem_of_cons, elem_of_nil in Hin.
    repeat (rewrite lookup_insert; case_decide; [reflexivity |]).
    exfalso. destruct Hin as [? | [? | [? | [? | []]]]]; congruence. }
  rewrite Hlookup. reflexivity.
Qed.

Lemma TerminationFlag_dumpBacktrace env st :
  TerminationFlag (dumpBacktrace env st) = TerminationFlag st.
Proof.
  unfold dumpBacktrace.
  destruct (0 <? _); [| reflexivity].
  destruct (backtrace_symbols _ _); [| reflexivity].
  destruct (writev_result env =? -1); reflexivity.
Qed.

Lemma TerminationFlag_handleFatalSignal env signal st :
  TerminationFlag (handleFatalSignal env signal st) = TerminationFlag st.
Proof.
  unfold handleFatalSignal, kill. simpl.
  rewrite TerminationFlag_dumpBacktrace.
  destruct (LOOL_DEBUG env); reflexivity.
Qed.

(** A call changes the flag only by running the termination handler,
    and then from false to true. *)
Lemma TerminationFlag_exec env c st :
  TerminationFlag (exec env c st) = TerminationFlag st
  \/ (runs_termination_handler c st = true
      /\ TerminationFlag st = false /\ TerminationFlag (exec env c st) = true).
Proof.
  destruct c as [| | dev beyond path | srcDir srcFilename | | | | signal | signal | signo |];
    simpl;
    try (left; reflexivity).
  - destruct (TerminationFlag st) eqn:Hflag.
    + left. rewrite handleTerminationSignal_again by exact Hflag. exact Hflag.
    + right. auto using handleTerminationSignal_sets.
  - left. apply TerminationFlag_handleFatalSignal.
  - unfold deliver. destruct (sigactions st !! signo) as [[] |]; try (left; reflexivity).
    + destruct (TerminationFlag st) eqn:Hflag.
      * left. rewrite handleTerminationSignal_again by exact Hflag. exact Hflag.
      * right. auto using handleTerminationSignal_sets.
    + left. apply TerminationFlag_handleFatalSignal.
  - unfold deliver_pending. destruct (pending st) as [| signo rest]; [left; reflexivity |].
    unfold deliver. change (sigactions (with_pending rest st)) with (sigactions st).
    destruct (sigactions st !! signo) as [[] |]; try (left; reflexivity).
    + destruct (TerminationFlag st) eqn:Hflag.
      * left. rewrite handleTerminationSignal_again by exact Hflag. exact Hflag.
      * right. repeat split. apply handleTerminationSignal_sets.
    + left. rewrite TerminationFlag_handleFatalSignal. reflexivity.
Qed.

(** C9. Once the flag is set it stays set through every sequence of
    calls of the module and deliveries of signals; and a call that
    changes the flag runs the termination handler, which takes it from
    false to true. *)
Theorem TerminationFlag_monotone env (cs : list call) st :
  TerminationFlag st = true ->
  TerminationFlag (exec_all env cs st) = true
  /\ forall c st',
       TerminationFlag (exec env c st') <> TerminationFlag st' ->
       runs_termination_handler c st' = true
       /\ TerminationFlag st' = false /\ TerminationFlag (exec env c st') = true.
Proof.
  intros Hflag. split.
  - revert st Hflag. unfold exec_all.
    induction cs as [| c rest IH]; intros st Hflag; simpl; [exact Hflag |].
    apply IH.
    destruct (TerminationFlag_exec env c st) as [Hsame | (_ & _ & Hset)]; congruence.
  - intros c st' Hchanged.
    destruct (TerminationFlag_exec env c st') as [Hsame | Hhandler]; [congruence | exact Hhandler].
Qed.

End Termination.

Lemma TerminationFlag_monotone_witness :
  TerminationFlag (@handleTerminationSignal linux 2 (start env0)) = true
  /\ TerminationFlag
       (@exec_all linux env0
          [Call_setTerminationSignals; Call_setFatalSignals; Call_UniqueId; Call_getNext;
           Call_getTempFilePath "/srv" "a.odt"; Signal_delivered 15; Call_reseed;
           Signal_delivered 11; Pending_delivered]
          (@handleTerminationSignal linux 2 (start env0))) = true.
Proof.
  split; [reflexivity |].
  apply (@TerminationFlag_monotone linux env0). reflexivity.
Defined.

(** ** The generator and its mutex *)

Section Mutex.
Import rng.

Lemma at_getNext_other t m m' steps :
  at_getNext t m steps -> holder m <> Some t -> holder m' <> Some t ->
  at_getNext t m' steps.
Proof.
  intros Hat Hm Hm'. destruct Hat as [n _ | n Hh | n Hh]; [| congruence | congruence].
  apply between_calls, Hm'.
Qed.

Lemma getNext_only_step env m t :
  getNext_only m ->
  getNext_only (thread_step env m t) /\ raced (thread_step env m t) = raced m.
Proof.
  intros [Hmutex Hpool]. unfold thread_step.
  destruct (pool m !! t) as [[| a rest] |] eqn:Ht; try (split; [split |]; assumption || reflexivity).
  pose proof (Hpool t _ Ht) as Hat.
  assert (Hlt : (t < length (pool m))%nat) by (eapply lookup_lt_Some; exact Ht).
  inversion Hat as [n Hh Hsteps | n Hh Hsteps | n Hh Hsteps].
  - (* between two calls: the step locks *)
    destruct n as [| n]; [discriminate |].
    injection Hsteps as <- <-. simpl enabled.
    destruct (_rngMutex (process m)) eqn:Hlocked; simpl.
    { split; [split; [rewrite Hlocked; exact Hmutex | exact Hpool] | reflexivity]. }
    assert (Hfree : holder m = None) by (apply Hmutex; reflexivity).
    split; [| reflexivity]. split; simpl; [split; discriminate |].
    intros u steps Hu. destruct (decide (t = u)) as [<- | Hne].
    + rewrite list_lookup_insert_eq in Hu by exact Hlt. injection Hu as <-.
      apply before_draw. reflexivity.
    + rewrite list_lookup_insert_ne in Hu by exact Hne.
      eapply at_getNext_other; [apply Hpool, Hu | |]; simpl; congruence.
  - (* inside, before the draw: the step draws, with the mutex held *)
    subst a rest. simpl enabled. cbv iota.
    unfold holds. rewrite bool_decide_eq_true_2 by exact Hh. simpl.
    split; [| reflexivity]. split; simpl; [exact Hmutex |].
    intros u steps Hu. destruct (decide (t = u)) as [<- | Hne].
    + rewrite list_lookup_insert_eq in Hu by exact Hlt. injection Hu as <-.
      apply before_unlock. exact Hh.
    + rewrite list_lookup_insert_ne in Hu by exact Hne.
      specialize (Hpool u steps Hu).
      destruct Hpool as [k Hk | k Hk | k Hk]; [apply between_calls | apply before_draw | apply before_unlock]; exact Hk.
  - (* inside, after the draw: the step unlocks *)
    subst a rest. simpl.
    split; [| reflexivity]. split; simpl; [split; reflexivity |].
    intros u steps Hu. destruct (decide (t = u)) as [<- | Hne].
    + rewrite list_lookup_insert_eq in Hu by exact Hlt. injection Hu as <-.
      apply between_calls. simpl. discriminate.
    + rewrite list_lookup_insert_ne in Hu by exact Hne.
      eapply at_getNext_other; [apply Hpool, Hu | |]; simpl; congruence.
Qed.

(** X10. Threads that only call [getNext] never change the generator
    without the mutex, however they are scheduled. *)
Lemma getNext_guarded env (calls : list nat) (schedule : list nat) st :
  _rngMutex st = false ->
  raced (run_threads env schedule (threads (map getNext_calls calls) st)) = [].
Proof.
  intros Hfree.
  assert (Hinv : getNext_only (threads (map getNext_calls calls) st)).
  { split; simpl; [split; auto |].
    intros t steps Ht. apply list_lookup_fmap_Some in Ht as (n & -> & _).
    apply between_calls. simpl. discriminate. }
  assert (Hraced : raced (threads (map getNext_calls calls) st) = []) by reflexivity.
  revert Hinv Hraced. generalize (threads (map getNext_calls calls) st) as m.
  unfold run_threads.
  induction schedule as [| t rest IH]; intros m Hinv Hraced; simpl; [exact Hraced |].
  destruct (getNext_only_step env m t Hinv) as [Hinv' Hsame].
  apply IH; [exact Hinv' | congruence].
Qed.

End Mutex.

(** C6. Every change of the generator is to be made with the mutex
    held.  [getNext] keeps to it; [reseed] does not.  Its one step seeds
    the generator and no step of it takes the mutex: a thread that calls
    it alone changes the generator without holding the mutex; and with a
    second thread inside [getNext], between its lock and its draw, the
    first still reseeds, and the draw is made from the new seed. *)
Theorem reseed_without_mutex env :
  let alone := rng.run_threads env [0%nat] (rng.threads [rng.reseed_steps env] (start env)) in
  let both :=
    rng.run_threads env [1; 0; 1; 1]%nat
      (rng.threads [rng.reseed_steps env; rng.getNext_steps] (start env)) in
  rng.raced alone = [(0%nat, rng.Seed (fresh_seed env))]
  /\ rng.raced both = [(0%nat, rng.Seed (fresh_seed env))]
  /\ rng.pool both = [[]; []]
  /\ _rng (rng.process both) = {| mt_seed := fresh_seed env; mt_drawn := 1 |}
  /\ _rng (rng.reseed env (start env)) = {| mt_seed := fresh_seed env; mt_drawn := 0 |}
  /\ _rngMutex (rng.reseed env (start env)) = false.
Proof. repeat split. Qed.

(** ** The fatal handler *)

Section Fatal.
Context `{Signum}.

Lemma events_emit e st : events (emit e st) = (events st ++ [e])%list.
Proof. reflexivity. Qed.

(** What the dump adds to the calls made, and what it leaves alone. *)
Lemma dumpBacktrace_events env st :
  exists rest,
    events (dumpBacktrace env st) = (events st ++ Sys_backtrace 50 :: rest)%list
    /\ forallb (fun e => negb (is_sigaction e) && negb (is_kill e)) rest = true
    /\ sigactions (dumpBacktrace env st) = sigactions st
    /\ pending (dumpBacktrace env st) = pending st.
Proof.
  unfold dumpBacktrace.
  destruct (0 <? _).
  - destruct (backtrace_symbols _ _) as [symbols |].
    + destruct (writev_result env =? -1);
        eexists; (split; [unfold syserror; rewrite ?events_emit, <- ?app_assoc; reflexivity |]);
        repeat split.
    + eexists. split; [rewrite ?events_emit, <- ?app_assoc; reflexivity |]. repeat split.
  - exists []. repeat split.
Qed.

(** C2. In every run of the fatal handler the calls come in this
    order: what is logged (and the pause of the debug mode), then the
    [sigaction] that gives the signal its default disposition, then the
    dump, which begins with [backtrace], then, last, the [kill] that
    raises the signal again.  No call before the [sigaction] belongs to
    the dump or raises a signal, and none after it changes a
    disposition.  So the signal raised is pending with the default
    disposition, and its delivery does what the system does by default:
    it does not run the handler again. *)
Theorem handleFatalSignal_order env signal st :
  let st' := handleFatalSignal env signal st in
  exists before dump,
    events st'
    = (events st ++ before ++ [Sys_sigaction signal SIG_DFL]
         ++ (Sys_backtrace 50 :: dump) ++ [Sys_kill (getpid env) signal])%list
    /\ forallb (fun e => negb (is_dump e) && negb (is_kill e)) before = true
    /\ forallb (fun e => negb (is_sigaction e) && negb (is_kill e)) dump = true
    /\ sigactions st' !! signal = Some SIG_DFL
    /\ pending st' = (pending st ++ [signal])%list
    /\ deliver env signal st' = emit (Default_action signal) st'.
Proof.
  intros st'.
  set (logged :=
    if LOOL_DEBUG env then
      sleep 30 (signalLog (FatalGdbString (signalLog LF (signalLog (signalName signal)
        (signalLog " Fatal signal received: " (signalLogPrefix st)))))
        (signalLog LF (signalLog (signalName signal)
          (signalLog " Fatal signal received: " (signalLogPrefix st)))))
    else signalLog LF (signalLog (signalName signal)
           (signalLog " Fatal signal received: " (signalLogPrefix st)))).
  assert (Hst' : st' = kill (getpid env) signal
                         (dumpBacktrace env (sigaction signal SIG_DFL logged))).
  { unfold st', handleFatalSignal, logged. destruct (LOOL_DEBUG env); reflexivity. }
  assert (Hlogged : exists before,
             events logged = (events st ++ before)%list
             /\ forallb (fun e => negb (is_dump e) && negb (is_kill e)) before = true
             /\ pending logged = pending st).
  { unfold logged. destruct (LOOL_DEBUG env); eexists;
      (split; [unfold sleep, signalLog, signalLogPrefix;
               rewrite ?events_emit, <- ?app_assoc; reflexivity |]); split; reflexivity. }
  destruct Hlogged as (before & Hbefore & Hquiet & Hpending).
  destruct (dumpBacktrace_events env (sigaction signal SIG_DFL logged))
    as (dump & Hdump & Hnone & Hsig & Hpend).
  assert (Hdfl : sigactions st' !! signal = Some SIG_DFL).
  { rewrite Hst'. unfold kill. simpl. rewrite Hsig. simpl. apply lookup_insert_eq. }
  exists before, dump. repeat split; try assumption.
  - rewrite Hst'. unfold kill. rewrite events_emit. simpl events.
    rewrite Hdump. unfold sigaction. rewrite events_emit. simpl events.
    rewrite Hbefore. rewrite <- !app_assoc. reflexivity.
  - rewrite Hst'. unfold kill. simpl. rewrite Hpend. simpl. rewrite Hpending. reflexivity.
  - unfold deliver. rewrite Hdfl. reflexivity.
Qed.

End Fatal.

(** ** The backtrace *)

Section Backtrace.

Lemma substr0_all s : Cxx.substr0 s (String.length s) = s.
Proof. induction s as [| c r IH]; simpl; [reflexivity | rewrite IH; reflexivity]. Qed.

Lemma take_two_inserts (l : list iovec) k x y :
  (k + 2 <= length l)%nat ->
  take (k + 2) (<[S k := y]> (<[k := x]> l)) = (take k l ++ [x; y])%list.
Proof.
  intros Hk.
  replace (k + 2)%nat with (S (S k)) by lia.
  rewrite (take_S_r _ (S k) y) by (apply list_lookup_insert_eq; rewrite length_insert; lia).
  rewrite take_insert_ge by lia.
  rewrite (take_S_r _ k x) by (apply list_lookup_insert_eq; lia).
  rewrite take_insert_ge by lia.
  rewrite <- app_assoc. reflexivity.
Qed.

Lemma length_fill_ioVector symbols i ioVector :
  length (fill_ioVector symbols i ioVector) = length ioVector.
Proof.
  revert i ioVector. induction symbols as [| sym rest IH]; intros i ioVector; simpl;
    [reflexivity |].
  rewrite IH, !length_insert. reflexivity.
Qed.

(** The loop leaves the slots in front of the one it starts at as they
    are and puts the two entries of each symbol after them, in order. *)
Lemma fill_ioVector_take symbols :
  forall i ioVector,
    (1 + 2 * (i + length symbols) <= length ioVector)%nat ->
    take (1 + 2 * (i + length symbols)) (fill_ioVector symbols i ioVector)
    = (take (1 + 2 * i) ioVector ++ flat_map entries symbols)%list.
Proof.
  induction symbols as [| sym rest IH]; intros i ioVector Hlen.
  - cbn [fill_ioVector length flat_map]. rewrite Nat.add_0_r, app_nil_r. reflexivity.
  - cbn [length] in *. cbn [fill_ioVector flat_map].
    replace (1 + 2 * (i + S (length rest)))%nat
      with (1 + 2 * (S i + length rest))%nat by lia.
    rewrite IH by (rewrite !length_insert; lia).
    replace (1 + i * 2 + 0)%nat with (1 + 2 * i)%nat by lia.
    replace (1 + i * 2 + 1)%nat with (S (1 + 2 * i))%nat by lia.
    replace (1 + 2 * S i)%nat with (1 + 2 * i + 2)%nat by lia.
    rewrite take_two_inserts by lia.
    rewrite <- app_assoc. reflexivity.
Qed.

Lemma gathered_entries symbols :
  gathered (flat_map entries symbols) = Some (lines symbols).
Proof.
  induction symbols as [| sym rest IH]; [reflexivity |].
  cbn [flat_map entries app gathered iov_base iov_len].
  rewrite IH. unfold strlen. rewrite Nat.leb_refl, (substr0_all sym).
  change (1 <=? String.length LF)%nat with true. reflexivity.
Qed.

Lemma length_entries symbols :
  length (flat_map entries symbols) = (2 * length symbols)%nat.
Proof. induction symbols as [| sym rest IH]; simpl; [reflexivity | rewrite IH; lia]. Qed.

Lemma length_backtrace env size : (length (backtrace env size) <= Z.to_nat size)%nat.
Proof. unfold backtrace. rewrite length_take. lia. Qed.

(** With at least one frame on the stack and the symbols given, the
    dump makes three calls, [backtrace], [backtrace_symbols] and one
    [writev] on the standard error stream, and reports the [writev] that
    fails.  The vector written is the header, with the length of its
    text, and the two entries of each frame captured. *)
Lemma dumpBacktrace_writes env st :
  call_stack env <> [] -> symbols_allocated env = true ->
  let frames := backtrace env 50 in
  let header := ("Backtrace " ++ Cxx.to_string (getpid env) ++ ":" ++ LF)%string in
  (0 < length frames <= 50)%nat
  /\ events (dumpBacktrace env st)
     = (events st
          ++ [Sys_backtrace 50; Sys_backtrace_symbols (Z.of_nat (length frames));
              Sys_writev STDERR_FILENO
                ({| iov_base := header; iov_len := strlen header |}
                 :: flat_map entries (map (symbol env) frames))]
          ++ (if writev_result env =? -1
              then [Log_syserror "Failed to dump backtrace to stderr."] else []))%list.
Proof.
  intros Hstack Hsymbols frames header. set (n := length frames).
  assert (Hn : (0 < n <= 50)%nat).
  { split.
    - unfold n, frames, backtrace. destruct (call_stack env); [congruence | simpl; lia].
    - pose proof (length_backtrace env 50). unfold n, frames. lia. }
  split; [exact Hn |].
  set (hdr := {| iov_base := header; iov_len := strlen header |}).
  assert (Hlen : length (map (symbol env) frames) = n) by apply length_map.
  unfold dumpBacktrace. fold frames. fold n. fold header. fold hdr.
  destruct (0 <? Z.of_nat n) eqn:Hpos; [| apply Z.ltb_ge in Hpos; lia].
  unfold backtrace_symbols. rewrite Hsymbols.
  set (blank := repeat _ _).
  assert (Hblank : length blank = 101%nat) by (unfold blank; apply repeat_length).
  replace (Z.to_nat (Z.of_nat n * 2 + 1))
    with (1 + 2 * (0 + length (map (symbol env) frames)))%nat by lia.
  rewrite fill_ioVector_take by (rewrite length_insert; lia).
  assert (Hhead : take (1 + 2 * 0) (<[0%nat := hdr]> blank) = [hdr]).
  { unfold blank. reflexivity. }
  rewrite Hhead.
  destruct (writev_result env =? -1); unfold syserror;
    rewrite ?events_emit, <- ?app_assoc; reflexivity.
Qed.

(** C5. With no frame captured, or with no symbols given for the frames
    captured, the dump writes nothing and reports no error: it makes the
    calls that capture and resolve and no other, and the process goes on
    as it was. *)
Theorem dumpBacktrace_silent env st :
  call_stack env = [] \/ symbols_allocated env = false ->
  exists calls,
    dumpBacktrace env st = with_events_of st (events st ++ calls)
    /\ forallb (fun e => negb (writes_stderr e) && negb (is_error e)) calls = true
    /\ (call_stack env = [] -> calls = [Sys_backtrace 50])
    /\ (call_stack env <> [] ->
        calls = [Sys_backtrace 50;
                 Sys_backtrace_symbols (Z.of_nat (length (backtrace env 50)))]).
Proof.
  intros Hcase. unfold dumpBacktrace.
  destruct (call_stack env) as [| a stack] eqn:Hstack.
  - exists [Sys_backtrace 50].
    unfold backtrace. rewrite Hstack. simpl.
    split; [destruct st; reflexivity |].
    split; [reflexivity |]. split; [reflexivity | congruence].
  - destruct Hcase as [Hnil | Hsymbols]; [discriminate |].
    exists [Sys_backtrace 50; Sys_backtrace_symbols (Z.of_nat (length (backtrace env 50)))].
    assert (Hpos : (0 <? Z.of_nat (length (backtrace env 50))) = true).
    { apply Z.ltb_lt. unfold backtrace. rewrite Hstack. simpl. lia. }
    rewrite Hpos. unfold backtrace_symbols. rewrite Hsymbols.
    split; [unfold emit, with_events_of; simpl; rewrite <- app_assoc; reflexivity |].
    split; [reflexivity |]. split; [congruence | reflexivity].
Qed.

End Backtrace.

(** ** What a crash writes *)

Section CrashOutput.
Context `{Signum}.

(** C4. The fatal handler with at least one frame on the stack and the
    symbols given.  It captures [n] frames, [0 < n <= 50], and among all
    its calls there is one [writev]: on the standard error stream, after
    the [sigaction] and the two calls that capture and resolve, before
    the [kill].  The vector has [2 n + 1] pieces, each with the length of
    its text: the header [Backtrace <pid>:] with its newline, then for
    each frame captured its symbol and a newline.  So what is written is
    the header line and one line for each frame.  A [writev] that fails is
    reported and not tried again. *)
Theorem handleFatalSignal_one_writev env signal st :
  call_stack env <> [] -> symbols_allocated env = true ->
  let frames := backtrace env 50 in
  let n := length frames in
  let header := ("Backtrace " ++ Cxx.to_string (getpid env) ++ ":" ++ LF)%string in
  let ioVector :=
    {| iov_base := header; iov_len := strlen header |}
    :: flat_map entries (map (symbol env) frames) in
  let calls :=
    ([Log_signalLogPrefix; Log_signalLog " Fatal signal received: ";
      Log_signalLog (signalName signal); Log_signalLog LF]
     ++ (if LOOL_DEBUG env then [Log_signalLog (FatalGdbString st); Sys_sleep 30] else [])
     ++ [Sys_sigaction signal SIG_DFL; Sys_backtrace 50; Sys_backtrace_symbols (Z.of_nat n);
         Sys_writev STDERR_FILENO ioVector]
     ++ (if writev_result env =? -1
         then [Log_syserror "Failed to dump backtrace to stderr."] else [])
     ++ [Sys_kill (getpid env) signal])%list in
  (0 < n <= 50)%nat
  /\ events (handleFatalSignal env signal st) = (events st ++ calls)%list
  /\ List.filter is_writev calls = [Sys_writev STDERR_FILENO ioVector]
  /\ length ioVector = (2 * n + 1)%nat
  /\ gathered ioVector = Some (header ++ lines (map (symbol env) frames))%string.
Proof.
  intros Hstack Hsymbols frames n header ioVector calls.
  assert (Hlen : length (map (symbol env) frames) = n) by apply length_map.
  split; [| split; [| split; [| split]]].
  - exact (proj1 (dumpBacktrace_writes env st Hstack Hsymbols)).
  - unfold handleFatalSignal, kill. rewrite events_emit. simpl events.
    match goal with
    | |- context [dumpBacktrace env ?s] =>
        rewrite (proj2 (dumpBacktrace_writes env s Hstack Hsymbols))
    end.
    fold frames. fold n. fold header. fold ioVector.
    unfold sigaction. rewrite events_emit. simpl events.
    unfold calls.
    destruct (LOOL_DEBUG env); unfold sleep, signalLog, signalLogPrefix;
      rewrite ?events_emit; simpl events; rewrite <- ?app_assoc; reflexivity.
  - unfold calls. destruct (LOOL_DEBUG env); destruct (writev_result env =? -1); reflexivity.
  - unfold ioVector. cbn [length]. rewrite length_entries, Hlen. lia.
  - unfold ioVector. cbn [gathered iov_base iov_len].
    rewrite gathered_entries. unfold strlen. rewrite Nat.leb_refl, substr0_all. reflexivity.
Qed.

End CrashOutput.

Lemma handleFatalSignal_one_writev_witness :
  call_stack env0 <> [] /\ symbols_allocated env0 = true
  /\ List.filter is_writev (events (@handleFatalSignal linux env0 11 (start env0)))
     = [Sys_writev STDERR_FILENO
          ({| iov_base := ("Backtrace 4242:" ++ LF)%string; iov_len := 16 |}
           :: entries "./loolwsd() [0x401000]" ++ entries "./loolwsd() [0x401200]"
           ++ entries "./loolwsd() [0x401400]")%list]
  /\ gathered
       ({| iov_base := ("Backtrace 4242:" ++ LF)%string; iov_len := 16 |}
        :: entries "./loolwsd() [0x401000]" ++ entries "./loolwsd() [0x401200]"
        ++ entries "./loolwsd() [0x401400]")%list
     = Some ("Backtrace 4242:" ++ LF
             ++ "./loolwsd() [0x401000]" ++ LF
             ++ "./loolwsd() [0x401200]" ++ LF
             ++ "./loolwsd() [0x401400]" ++ LF)%string.
Proof.
  assert (Hstack : call_stack env0 <> []) by discriminate.
  assert (Hsymbols : symbols_allocated env0 = true) by reflexivity.
  split; [exact Hstack |]. split; [exact Hsymbols |].
  destruct (@handleFatalSignal_one_writev linux env0 11 (start env0) Hstack Hsymbols)
    as (_ & Hevents & Hone & _ & Hgathered).
  split; [rewrite Hevents; exact Hone | exact Hgathered].
Defined.

Lemma dumpBacktrace_silent_witness :
  call_stack env_no_frames = []
  /\ (exists calls,
        dumpBacktrace env_no_frames (start env_no_frames)
        = with_events_of (start env_no_frames) calls
        /\ calls = [Sys_backtrace 50])
  /\ symbols_allocated env_no_symbols = false
  /\ (exists calls,
        dumpBacktrace env_no_symbols (start env_no_symbols)
        = with_events_of (start env_no_symbols) calls
        /\ calls = [Sys_backtrace 50; Sys_backtrace_symbols 3]).
Proof.
  split; [reflexivity |]. split.
  - destruct (dumpBacktrace_silent env_no_frames (start env_no_frames))
      as (calls & Hdump & _ & Hnone & _); [left; reflexivity |].
    exists calls. split; [exact Hdump | apply Hnone; reflexivity].
  - split; [reflexivity |].
    destruct (dumpBacktrace_silent env_no_symbols (start env_no_symbols))
      as (calls & Hdump & _ & _ & Hsome); [right; reflexivity |].
    exists calls. split; [exact Hdump | apply Hsome; discriminate].
Defined.

(** ** Identifiers of the process *)

Section Identity.
Import Cxx.

Lemma wrap_int_small z : 0 <= z < 2 ^ 31 -> wrap_int z = z.
Proof.
  unfold wrap_int. change (2 ^ 31) with 2147483648. change (2 ^ 32) with 4294967296.
  intros Hz. rewrite Z.mod_small by lia. lia.
Qed.

Lemma wrap_int_range z : INT_MIN <= wrap_int z <= INT_MAX.
Proof.
  unfold wrap_int, INT_MIN, INT_MAX.
  change (2 ^ 31) with 2147483648. change (2 ^ 32) with 4294967296.
  pose proof (Z.mod_pos_bound (z + 2147483648) 4294967296 ltac:(lia)). lia.
Qed.

Lemma wrap_int_succ z : wrap_int (wrap_int z + 1) = wrap_int (z + 1).
Proof.
  unfold wrap_int. f_equal.
  replace ((z + 2 ^ 31) mod 2 ^ 32 - 2 ^ 31 + 1 + 2 ^ 31)
    with ((z + 2 ^ 31) mod 2 ^ 32 + 1) by lia.
  rewrite Z.add_mod_idemp_l by (change (2 ^ 32) with 4294967296; lia).
  f_equal. lia.
Qed.

Lemma wrap_int_inj a b :
  0 <= a < 2 ^ 32 -> 0 <= b < 2 ^ 32 -> wrap_int a = wrap_int b -> a = b.
Proof.
  unfold wrap_int. change (2 ^ 31) with 2147483648. change (2 ^ 32) with 4294967296.
  intros Ha Hb Hab.
  pose proof (Z.div_mod (a + 2147483648) 4294967296 ltac:(lia)).
  pose proof (Z.div_mod (b + 2147483648) 4294967296 ltac:(lia)).
  pose proof (Z.mod_pos_bound (a + 2147483648) 4294967296 ltac:(lia)).
  pose proof (Z.mod_pos_bound (b + 2147483648) 4294967296 ltac:(lia)).
  lia.
Qed.

Lemma to_string_inj a b : to_string a = to_string b -> a = b.
Proof.
  unfold to_string. intros Hab. apply DecimalZ.to_int_inj.
  pose proof (NilEmpty.isi (Z.to_int a)) as Ha.
  rewrite Hab, NilEmpty.isi in Ha. congruence.
Qed.

Lemma append_inv_head s a b : (s ++ a)%string = (s ++ b)%string -> a = b.
Proof. induction s as [| c r IH]; simpl; intros Hab; [exact Hab |]. apply IH. congruence. Qed.

(** The counter after [k] calls is [k], wrapped to an [int]. *)
Lemma counter_at_wrap env k : counter_at env k = wrap_int (Z.of_N k).
Proof.
  unfold counter_at, after_UniqueIds.
  induction k as [| k IH] using N.peano_ind; [reflexivity |].
  rewrite N.iter_succ. set (st := N.iter k _ _) in *.
  change (wrap_int (counter st + 1) = wrap_int (Z.of_N (N.succ k))).
  rewrite IH, wrap_int_succ, N2Z.inj_succ. reflexivity.
Qed.

(** The counter is an [int] at every call. *)
Lemma counter_at_range env k : INT_MIN <= counter_at env k <= INT_MAX.
Proof. rewrite counter_at_wrap. apply wrap_int_range. Qed.

Lemma UniqueId_call_eq env k :
  UniqueId_call env k
  = (to_string (getpid env) ++ "/" ++ to_string (counter_at env k))%string.
Proof. reflexivity. Qed.

Lemma UniqueId_call_inj env i j :
  UniqueId_call env i = UniqueId_call env j -> counter_at env i = counter_at env j.
Proof.
  rewrite !UniqueId_call_eq. intros Hij.
  apply append_inv_head in Hij. apply (append_inv_head "/") in Hij.
  apply to_string_inj, Hij.
Qed.

End Identity.

(** C8, as the code has it.  The identifiers are
    [<processId>/<counter>] with the counter from zero.  The counter is an
    [int]: among the first [2^32] calls no two identifiers are the same,
    and among the first [2^31] the counter is the number of the call and
    so strictly increasing. *)
Theorem UniqueId_distinct_increasing env (K i j : N) :
  (i < j < K)%N ->
  UniqueId_call env i
  = (Cxx.to_string (getpid env) ++ "/" ++ Cxx.to_string (counter_at env i))%string
  /\ UniqueId_call env j
     = (Cxx.to_string (getpid env) ++ "/" ++ Cxx.to_string (counter_at env j))%string
  /\ counter_at env 0 = 0
  /\ ((K <= 2 ^ 32)%N -> UniqueId_call env i <> UniqueId_call env j)
  /\ ((K <= 2 ^ 31)%N ->
      counter_at env i = Z.of_N i /\ counter_at env j = Z.of_N j
      /\ counter_at env i < counter_at env j).
Proof.
  intros Hij.
  split; [apply UniqueId_call_eq |]. split; [apply UniqueId_call_eq |].
  split; [reflexivity |]. split.
  - intros HK Heq. apply UniqueId_call_inj in Heq.
    rewrite !counter_at_wrap in Heq.
    assert (HK' : Z.of_N K <= 2 ^ 32).
    { change (2 ^ 32) with (Z.of_N (2 ^ 32)). lia. }
    apply wrap_int_inj in Heq; lia.
  - intros HK.
    assert (HK' : Z.of_N K <= 2 ^ 31).
    { change (2 ^ 31) with (Z.of_N (2 ^ 31)). lia. }
    rewrite !counter_at_wrap, !wrap_int_small by lia. lia.
Qed.

Lemma UniqueId_distinct_increasing_witness :
  (1 < 2 < 3)%N
  /\ UniqueId_call env0 1 = "4242/1" /\ UniqueId_call env0 2 = "4242/2"
  /\ UniqueId_call env0 1 <> UniqueId_call env0 2
  /\ counter_at env0 1 < counter_at env0 2.
Proof.
  assert (Hij : (1 < 2 < 3)%N) by lia.
  split; [exact Hij |].
  pose proof (UniqueId_distinct_increasing env0 3 1 2 Hij) as (H1 & H2 & _ & Hne & Hlt).
  split; [exact H1 |]. split; [exact H2 |].
  split; [apply Hne; vm_compute; discriminate |].
  apply Hlt. vm_compute. discriminate.
Defined.

(** C8, as it is stated, fails: after [2^31] calls the counter is the
    least [int], below the one before it, and call number [2^32] returns
    the identifier of the first call again. *)
Lemma UniqueId_wraps :
  counter_at env0 (2 ^ 31 - 1) = 2147483647
  /\ counter_at env0 (2 ^ 31) = -2147483648
  /\ UniqueId_call env0 (2 ^ 31) = "4242/-2147483648"
  /\ UniqueId_call env0 (2 ^ 32) = UniqueId_call env0 0.
Proof.
  rewrite !UniqueId_call_eq, !counter_at_wrap. repeat split.
Qed.

(** ** [replace] and [formatLinesForLog] *)

Section Replace.
Import Cxx.

Lemma occurs_app c s t : occurs c (s ++ t) = occurs c s || occurs c t.
Proof.
  induction s as [| d r IH]; simpl; [reflexivity |].
  rewrite IH, orb_assoc. reflexivity.
Qed.

Lemma prefix_nil s : String.prefix EmptyString s = true.
Proof. destruct s; reflexivity. Qed.

Lemma prefix_app a s t : String.prefix a s = true -> String.prefix a (s ++ t) = true.
Proof.
  revert s. induction a as [| c a IH]; intros s Hs; [apply prefix_nil |].
  destruct s as [| d r]; [discriminate |]. simpl in *.
  destruct (ascii_dec c d); [apply IH, Hs | discriminate].
Qed.

Lemma find_string_unfold a s :
  find_string a s
  = if String.prefix a s then Some 0%nat
    else match s with
         | EmptyString => None
         | String _ r => option_map S (find_string a r)
         end.
Proof. destruct s; reflexivity. Qed.

Lemma find_string_app_l a s t : find_string a s <> None -> find_string a (s ++ t) <> None.
Proof.
  induction s as [| d r IH]; intros Hs.
  - rewrite find_string_unfold in Hs. rewrite find_string_unfold.
    destruct (String.prefix a EmptyString) eqn:Ha; [| congruence].
    rewrite (prefix_app _ _ t Ha). discriminate.
  - rewrite find_string_unfold in Hs. rewrite find_string_unfold.
    destruct (String.prefix a (String d r)) eqn:Ha.
    + rewrite (prefix_app _ _ t Ha). discriminate.
    + simpl append. destruct (String.prefix a (String d (r ++ t))); [discriminate |].
      assert (Hr : find_string a r <> None)
        by (destruct (find_string a r); [discriminate | simpl in Hs; congruence]).
      specialize (IH Hr). destruct (find_string a (r ++ t)); [discriminate | congruence].
Qed.

Lemma find_string_app_r a s t : find_string a t <> None -> find_string a (s ++ t) <> None.
Proof.
  intros Ht. induction s as [| d r IH]; [exact Ht |].
  simpl append. rewrite find_string_unfold.
  destruct (String.prefix a (String d (r ++ t))); [discriminate |].
  destruct (find_string a (r ++ t)); [discriminate | congruence].
Qed.

Lemma replace_at_parts pos n b s :
  exists x y, replace_at pos n b s = (x ++ b ++ y)%string.
Proof.
  revert s. induction pos as [| p IH]; intros s.
  - exists EmptyString, (drop_string n s). destruct s; reflexivity.
  - destruct s as [| c r].
    + exists EmptyString, EmptyString. simpl. rewrite append_nil_r. reflexivity.
    + destruct (IH r) as (x & y & Hxy). exists (String c x), y. simpl. rewrite Hxy. reflexivity.
Qed.

Lemma replace_unfold fuel result a b :
  replace fuel result a b
  = match find_string a result with
    | None => Some result
    | Some pos =>
        match fuel with
        | O => None
        | S f => replace f (replace_at pos (String.length a) b result) a b
        end
    end.
Proof. destruct fuel; reflexivity. Qed.

(** What [replace] returns holds the pattern nowhere. *)
Lemma replace_Some_free fuel :
  forall s a b r, replace fuel s a b = Some r -> find_string a r = None.
Proof.
  induction fuel as [| f IH]; intros s a b r Hr; rewrite replace_unfold in Hr;
    destruct (find_string a s) eqn:Hfind; try discriminate.
  - injection Hr as <-. exact Hfind.
  - eapply IH, Hr.
  - injection Hr as <-. exact Hfind.
Qed.

Lemma replace_free fuel s a b : find_string a s = None -> replace fuel s a b = Some s.
Proof. intros Hfree. rewrite replace_unfold, Hfree. reflexivity. Qed.

(** *** A pattern of one character *)

Lemma find_char_cons c d r :
  find_string (String c EmptyString) (String d r)
  = if Ascii.eqb d c then Some 0%nat
    else option_map S (find_string (String c EmptyString) r).
Proof.
  rewrite find_string_unfold. simpl String.prefix.
  destruct (ascii_dec c d) as [-> | Hne].
  - rewrite prefix_nil, Ascii.eqb_refl. reflexivity.
  - destruct (Ascii.eqb d c) eqn:Hdc; [apply Ascii.eqb_eq in Hdc; congruence | reflexivity].
Qed.

Lemma find_char_absent c s :
  find_string (String c EmptyString) s = None <-> occurs c s = false.
Proof.
  induction s as [| d r IH]; [split; reflexivity |].
  rewrite find_char_cons. simpl occurs.
  destruct (Ascii.eqb d c); simpl; [split; discriminate |].
  rewrite <- IH. destruct (find_string (String c EmptyString) r); simpl; split; congruence.
Qed.

Lemma find_char_first c done r :
  occurs c done = false ->
  find_string (String c EmptyString) (done ++ String c r) = Some (String.length done).
Proof.
  induction done as [| d done IH]; intros Hdone.
  - simpl append. rewrite find_char_cons, Ascii.eqb_refl. reflexivity.
  - simpl in Hdone. apply orb_false_iff in Hdone as [Hd Hrest].
    simpl append. rewrite find_char_cons, Hd, (IH Hrest). reflexivity.
Qed.

Lemma replace_at_first done b c r :
  replace_at (String.length done) 1 b (done ++ String c r) = (done ++ b ++ r)%string.
Proof.
  induction done as [| d done IH]; simpl; [destruct r; reflexivity |].
  rewrite IH. reflexivity.
Qed.

(** The loop on [done ++ s], where the pattern [c] is neither in [done]
    nor in [b]: one round for each [c] of [s]. *)
Lemma replace_char_from c b s :
  occurs c b = false ->
  forall done fuel,
    occurs c done = false ->
    replace fuel (done ++ s) (String c EmptyString) b
    = if (count_char c s <=? fuel)%nat then Some (done ++ subst_char c b s)%string else None.
Proof.
  intros Hb. induction s as [| d r IH]; intros done fuel Hdone.
  - simpl. rewrite append_nil_r. apply replace_free, find_char_absent, Hdone.
  - simpl count_char. simpl subst_char.
    destruct (Ascii.eqb d c) eqn:Hd.
    + apply Ascii.eqb_eq in Hd. subst d.
      rewrite replace_unfold, (find_char_first _ _ _ Hdone).
      destruct fuel as [| f]; [reflexivity |].
      simpl String.length. rewrite replace_at_first, <- append_assoc.
      rewrite IH by (rewrite occurs_app, Hdone, Hb; reflexivity).
      rewrite append_assoc. reflexivity.
    + change (done ++ String d r)%string with (done ++ (String d EmptyString ++ r))%string.
      rewrite <- append_assoc.
      rewrite IH by (rewrite occurs_app, Hdone; simpl; rewrite Hd; reflexivity).
      rewrite append_assoc. reflexivity.
Qed.

Lemma occurs_subst_char c b s : occurs c b = false -> occurs c (subst_char c b s) = false.
Proof.
  intros Hb. induction s as [| d r IH]; simpl; [reflexivity |].
  destruct (Ascii.eqb d c) eqn:Hd; [rewrite occurs_app, Hb, IH; reflexivity |].
  simpl. rewrite Hd, IH. reflexivity.
Qed.

End Replace.

(** X1. [replace] with a pattern of one character [c] and a replacement
    that does not hold [c]: the loop makes one round for each [c] of the
    text, and then returns the text with every [c] replaced, in which no
    [c] is left. *)
Theorem replace_char_rounds c b s fuel :
  Cxx.occurs c b = false ->
  replace fuel s (String c EmptyString) b
  = (if (count_char c s <=? fuel)%nat then Some (subst_char c b s) else None)
  /\ Cxx.occurs c (subst_char c b s) = false.
Proof.
  intros Hb. split; [| apply occurs_subst_char, Hb].
  apply (replace_char_from c b s Hb EmptyString fuel). reflexivity.
Qed.

Lemma replace_char_rounds_witness :
  Cxx.occurs "-" "+" = false
  /\ replace 2 "a-b-c" "-" "+" = Some "a+b+c"
  /\ replace 1 "a-b-c" "-" "+" = None.
Proof.
  assert (Hb : Cxx.occurs "-" "+" = false) by reflexivity.
  split; [exact Hb |]. split.
  - exact (proj1 (replace_char_rounds "-" "+" "a-b-c" 2 Hb)).
  - exact (proj1 (replace_char_rounds "-" "+" "a-b-c" 1 Hb)).
Defined.

(** X2. [replace] does not return when the pattern occurs in the text
    and in its own replacement: every round puts the pattern back.  This
    is so for the empty pattern with any text and any replacement. *)
Theorem replace_never_returns a b s fuel :
  find_string a s <> None -> find_string a b <> None ->
  replace fuel s a b = None.
Proof.
  intros Hs Hb. revert s Hs. induction fuel as [| f IH]; intros s Hs;
    rewrite replace_unfold; destruct (find_string a s) as [pos |]; try congruence.
  apply IH.
  destruct (replace_at_parts pos (String.length a) b s) as (x & y & ->).
  apply find_string_app_r, find_string_app_l, Hb.
Qed.

Lemma replace_never_returns_witness :
  find_string EmptyString "abc" <> None /\ find_string EmptyString "z" <> None
  /\ replace 1000 "abc" EmptyString "z" = None
  /\ replace 1000 "a b" " " "  " = None.
Proof.
  split; [discriminate |]. split; [discriminate |]. split.
  - apply (replace_never_returns EmptyString "z" "abc" 1000); discriminate.
  - apply (replace_never_returns " " "  " "a b" 1000); discriminate.
Defined.

Section FormatLines.
Import Cxx.

Lemma back_nonempty s c : back s = Some c -> (0 <? String.length s)%nat = true.
Proof. destruct s; [discriminate | reflexivity]. Qed.

Lemma back_occurs s c : back s = Some c -> occurs c s = true.
Proof.
  induction s as [| d r IH]; [discriminate |].
  destruct r as [| e r'].
  - intros [= ->]. simpl. rewrite Ascii.eqb_refl. reflexivity.
  - intros Hb.
    change (occurs c (String d (String e r')))
      with (Ascii.eqb d c || occurs c (String e r')).
    rewrite (IH Hb). apply orb_true_r.
Qed.

Lemma formatLinesForLog_chomp fuel s :
  formatLinesForLog fuel s = replace fuel (chomp s) LF " / ".
Proof.
  unfold formatLinesForLog, chomp.
  destruct (back s) as [c |] eqn:Hback.
  - rewrite (back_nonempty _ _ Hback). reflexivity.
  - rewrite andb_false_r. reflexivity.
Qed.

Lemma count_char_substr0 c s n : (count_char c (substr0 s n) <= count_char c s)%nat.
Proof.
  revert s. induction n as [| n IH]; intros [| d r]; simpl; try lia.
  specialize (IH r). lia.
Qed.

Lemma count_char_chomp c s : (count_char c (chomp s) <= count_char c s)%nat.
Proof.
  unfold chomp. destruct (back s) as [d |]; [| lia].
  destruct (Ascii.eqb d _); [apply count_char_substr0 | lia].
Qed.

Lemma chomp_free s : occurs (ascii_of_nat 10) s = false -> chomp s = s.
Proof.
  intros Hfree. unfold chomp. destruct (back s) as [c |] eqn:Hback; [| reflexivity].
  destruct (Ascii.eqb c (ascii_of_nat 10)) eqn:Hc; [| reflexivity].
  apply Ascii.eqb_eq in Hc. subst c. apply back_occurs in Hback. congruence.
Qed.

End FormatLines.

(** X3. [formatLinesForLog] returns, after one round of the loop of
    [replace] for each newline left: the text without one newline at its
    end and with [" / "] for every other newline.  The result is on one
    line. *)
Theorem formatLinesForLog_one_line s fuel :
  (count_char (ascii_of_nat 10) s <= fuel)%nat ->
  formatLinesForLog fuel s = Some (subst_char (ascii_of_nat 10) " / " (chomp s))
  /\ Cxx.occurs (ascii_of_nat 10) (subst_char (ascii_of_nat 10) " / " (chomp s)) = false.
Proof.
  intros Hfuel. rewrite formatLinesForLog_chomp. unfold LF.
  pose proof (count_char_chomp (ascii_of_nat 10) s) as Hle.
  split; [| apply occurs_subst_char; reflexivity].
  change (replace fuel (EmptyString ++ chomp s) (String (ascii_of_nat 10) EmptyString) " / "
          = Some (EmptyString ++ subst_char (ascii_of_nat 10) " / " (chomp s))%string).
  rewrite (replace_char_from (ascii_of_nat 10) " / " (chomp s) eq_refl EmptyString fuel eq_refl).
  destruct (Nat.leb_spec (count_char (ascii_of_nat 10) (chomp s)) fuel); [reflexivity | lia].
Qed.

Lemma formatLinesForLog_one_line_witness :
  (count_char (ascii_of_nat 10) ("a" ++ LF ++ "b" ++ LF) <= 2)%nat
  /\ formatLinesForLog 2 ("a" ++ LF ++ "b" ++ LF) = Some "a / b".
Proof.
  assert (Hfuel : (count_char (ascii_of_nat 10) ("a" ++ LF ++ "b" ++ LF) <= 2)%nat)
    by (vm_compute; lia).
  split; [exact Hfuel |].
  exact (proj1 (formatLinesForLog_one_line ("a" ++ LF ++ "b" ++ LF) 2 Hfuel)).
Defined.

(** X4. [formatLinesForLog] changes nothing in what it has returned:
    formatted again, with any fuel, the text comes back as it is. *)
Theorem formatLinesForLog_idempotent s fuel r fuel' :
  formatLinesForLog fuel s = Some r -> formatLinesForLog fuel' r = Some r.
Proof.
  rewrite !formatLinesForLog_chomp. intros Hr.
  apply replace_Some_free in Hr. unfold LF in *.
  pose proof (proj1 (find_char_absent _ _) Hr) as Hfree.
  rewrite (chomp_free _ Hfree). apply replace_free, Hr.
Qed.

Lemma formatLinesForLog_idempotent_witness :
  formatLinesForLog 1 ("a" ++ LF ++ "b" ++ LF) = Some "a / b"
  /\ formatLinesForLog 0 "a / b" = Some "a / b".
Proof.
  assert (Hr : formatLinesForLog 1 ("a" ++ LF ++ "b" ++ LF) = Some "a / b") by reflexivity.
  split; [exact Hr |].
  exact (formatLinesForLog_idempotent _ 1 "a / b" 0 Hr).
Defined.

(** ** [getMemoryUsage] *)

Section Stoi.
Import Cxx.

(** A decimal digit is no white space and no sign. *)
Lemma dec_val_plain c :
  dec_val c <> None -> is_space c = false /\ read_sign (String c EmptyString) = (false, String c EmptyString).
Proof.
  destruct c as [[] [] [] [] [] [] [] []]; vm_compute; intros Hc;
    try (exfalso; apply Hc; reflexivity); split; reflexivity.
Qed.

Lemma read_sign_digit c r : dec_val c <> None -> read_sign (String c r) = (false, String c r).
Proof.
  intros Hc. destruct (dec_val_plain c Hc) as [_ Hsign].
  unfold read_sign in *.
  destruct c as [[] [] [] [] [] [] [] []]; try reflexivity; discriminate.
Qed.

(** The digits of a decimal number, read back from the left. *)
Lemma read_dec_uint rest d :
  no_digit_ahead rest ->
  forall acc,
    read_dec (NilEmpty.string_of_uint d ++ rest) acc
    = Z.of_N (Unsigned.of_lu (Decimal.rev d)) + acc * 10 ^ Z.of_N (Unsigned.usize d).
Proof.
  intros Hrest. induction d; intros acc;
    [cbn; destruct rest as [| c r]; [cbn; lia | cbn in *; rewrite Hrest; lia] | ..];
    cbn [NilEmpty.string_of_uint append read_dec];
    match goal with
    | |- context [Decimal.rev (?k d)] =>
        change (Decimal.rev (k d)) with (Decimal.revapp d (k Decimal.Nil));
        rewrite (Unsigned.of_lu_revapp d (k Decimal.Nil))
    end;
    match goal with
    | |- context [dec_val ?c] =>
        let v := eval vm_compute in (dec_val c) in change (dec_val c) with v
    end;
    cbv iota; rewrite IHd;
    cbn [Unsigned.of_lu Unsigned.usize];
    rewrite N2Z.inj_add, N2Z.inj_mul, N2Z.inj_pow, N2Z.inj_succ, Z.pow_succ_r
      by apply N2Z.is_nonneg;
    rewrite ?N2Z.inj_add, ?N2Z.inj_mul; cbn [Z.of_N]; ring.
Qed.

Lemma read_dec_to_uint rest p :
  no_digit_ahead rest ->
  read_dec (NilEmpty.string_of_uint (Pos.to_uint p) ++ rest) 0 = Z.pos p.
Proof.
  intros Hrest. rewrite (read_dec_uint rest _ Hrest).
  rewrite <- Unsigned.of_uint_alt, Unsigned.of_to. simpl. lia.
Qed.

Lemma string_of_uint_head d :
  d <> Decimal.Nil ->
  exists c r, NilEmpty.string_of_uint d = String c r /\ dec_val c <> None.
Proof.
  intros Hd. destruct d; [congruence | ..]; simpl; eexists _, _; (split; [reflexivity | discriminate]).
Qed.

Lemma skip_ws_blanks pad s : all_in " " pad = true -> skip_ws (pad ++ s) = skip_ws s.
Proof.
  induction pad as [| c r IH]; intros Hpad; [reflexivity |].
  change (all_in " " (String c r))
    with ((Ascii.eqb " " c || false) && all_in " " r) in Hpad.
  apply andb_prop in Hpad as [Hc Hr].
  rewrite orb_false_r in Hc. apply Ascii.eqb_eq in Hc. subst c.
  simpl. apply IH, Hr.
Qed.

Lemma skip_ws_digit c r : dec_val c <> None -> skip_ws (String c r) = String c r.
Proof. intros Hc. destruct (dec_val_plain c Hc) as [Hsp _]. simpl. rewrite Hsp. reflexivity. Qed.

Lemma stoi_digits (negative : bool) (p : positive) (rest : string) :
  no_digit_ahead rest ->
  let v := if negative then Z.neg p else Z.pos p in
  INT_MIN <= v <= INT_MAX ->
  (let digits := (NilEmpty.string_of_uint (Pos.to_uint p) ++ rest)%string in
   match digits with
   | String c _ =>
       match dec_val c with
       | Some _ =>
           let v := if negative then - read_dec digits 0 else read_dec digits 0 in
           if (INT_MIN <=? v) && (v <=? INT_MAX) then Some v else None
       | None => None
       end
   | EmptyString => None
   end) = Some v.
Proof.
  intros Hrest v Hv. cbv zeta.
  pose proof (read_dec_to_uint rest p Hrest) as Hread.
  destruct (string_of_uint_head (Pos.to_uint p) (Unsigned.to_uint_nonnil p)) as (c & r & Hc & Hdigit).
  rewrite Hc in *. simpl append in *.
  destruct (dec_val c) eqn:Hval; [| congruence].
  rewrite Hread.
  assert (Hsame : (if negative then - Z.pos p else Z.pos p) = v) by (destruct negative; reflexivity).
  rewrite Hsame.
  destruct (INT_MIN <=? v) eqn:Hlo; [| apply Z.leb_gt in Hlo; lia].
  destruct (v <=? INT_MAX) eqn:Hhi; [rewrite Hval; reflexivity | apply Z.leb_gt in Hhi; lia].
Qed.

(** [stoi] reads back what [to_string] prints, with blanks in front and
    anything but a digit behind. *)
Lemma stoi_to_string pad n rest :
  all_in " " pad = true -> no_digit_ahead rest -> INT_MIN <= n <= INT_MAX ->
  stoi (pad ++ to_string n ++ rest) = Some n.
Proof.
  intros Hpad Hrest Hn. unfold stoi, to_string. rewrite (skip_ws_blanks _ _ Hpad).
  destruct n as [| p | p]; simpl Z.to_int; cbn [NilEmpty.string_of_int].
  - cbn [NilEmpty.string_of_uint append skip_ws]. simpl.
    change (read_dec (String "0" rest) 0) with (read_dec rest 0).
    destruct rest as [| c r]; [reflexivity |]. simpl in *. rewrite Hrest. reflexivity.
  - destruct (string_of_uint_head (Pos.to_uint p) (Unsigned.to_uint_nonnil p))
      as (c & r & Hc & Hdigit).
    pose proof (stoi_digits false p rest Hrest Hn) as Hstoi. cbv zeta in Hstoi.
    rewrite Hc in *. simpl append in *.
    rewrite (skip_ws_digit _ _ Hdigit), (read_sign_digit _ _ Hdigit). exact Hstoi.
  - simpl append. cbn [skip_ws]. change (is_space "-") with false. cbv iota.
    change (read_sign (String "-" (NilEmpty.string_of_uint (Pos.to_uint p) ++ rest)))
      with (true, (NilEmpty.string_of_uint (Pos.to_uint p) ++ rest)%string).
    exact (stoi_digits true p rest Hrest Hn).
Qed.

Lemma stoi_blank s : all_in " " s = true -> stoi s = None.
Proof.
  intros Hs. unfold stoi.
  replace s with (s ++ EmptyString)%string by apply append_nil_r.
  rewrite (skip_ws_blanks _ _ Hs). reflexivity.
Qed.

End Stoi.

Section Response.
Import Cxx.

Lemma c_string_plain s : occurs Ascii.zero s = false -> c_string s = s.
Proof.
  induction s as [| c r IH]; intros Hs; [reflexivity |].
  cbn [occurs] in Hs. apply orb_false_elim in Hs as [Hc Hr].
  cbn [c_string]. rewrite Hc, IH by exact Hr. reflexivity.
Qed.

(** What [fgets] reads and what it leaves make up the stream, and it
    reads a character at least when there is room and the stream is not
    at its end. *)
Lemma fgets_parts room :
  forall stream,
    (fst (fgets room stream) ++ snd (fgets room stream))%string = stream
    /\ (String.length (snd (fgets room stream)) <= String.length stream)%nat
    /\ (forall k c behind, room = S k -> stream = String c behind ->
        (String.length (snd (fgets room stream)) < String.length stream)%nat).
Proof.
  induction room as [| k IH]; intros stream.
  - destruct stream; cbn [fgets fst snd append]; (split; [reflexivity |]); split;
      try lia; intros; discriminate.
  - destruct stream as [| c behind]; cbn [fgets].
    { cbn [fst snd append]. split; [reflexivity |]. split; [lia |]. intros; discriminate. }
    destruct (Ascii.eqb c (ascii_of_nat 10)).
    + cbn [fst snd append String.length]. split; [reflexivity |]. split; [lia |]. intros; lia.
    + destruct (IH behind) as (Hparts & Hle & _).
      destruct (fgets k behind) as [read left]. cbn [fst snd append String.length] in *.
      rewrite Hparts. split; [reflexivity |]. split; [lia |]. intros; lia.
Qed.

(** More rounds than the stream has characters read nothing more: the
    loop has ended at the end of the stream. *)
Lemma read_response_ended rounds :
  forall fp sResponse more,
    (String.length fp <= rounds)%nat ->
    read_response (rounds + more) fp sResponse = read_response rounds fp sResponse.
Proof.
  induction rounds as [| k IH]; intros fp sResponse more Hlen.
  - destruct fp; [| cbn [String.length] in Hlen; lia]. destruct more; reflexivity.
  - destruct fp as [| c behind]; [reflexivity |].
    cbn [Nat.add read_response].
    pose proof (fgets_parts (sizeof_cmdBuffer - 1 - 1) (String c behind)) as (_ & _ & Hless).
    specialize (Hless _ c behind eq_refl eq_refl).
    destruct (fgets (sizeof_cmdBuffer - 1 - 1) (String c behind)) as [cmdBuffer fp].
    cbn [snd] in Hless. cbn [String.length] in Hlen, Hless. apply IH. lia.
Qed.

(** An output without NUL is read as it is. *)
Lemma read_response_plain rounds :
  forall fp sResponse,
    (String.length fp <= rounds)%nat -> occurs Ascii.zero fp = false ->
    read_response rounds fp sResponse = (sResponse ++ fp)%string.
Proof.
  induction rounds as [| k IH]; intros fp sResponse Hlen Hplain.
  - destruct fp; [| cbn [String.length] in Hlen; lia]. cbn. rewrite append_nil_r. reflexivity.
  - destruct fp as [| c behind]; [cbn; rewrite append_nil_r; reflexivity |].
    cbn [read_response].
    pose proof (fgets_parts (sizeof_cmdBuffer - 1 - 1) (String c behind)) as (Hparts & _ & Hless).
    specialize (Hless _ c behind eq_refl eq_refl).
    destruct (fgets (sizeof_cmdBuffer - 1 - 1) (String c behind)) as [cmdBuffer fp].
    cbn [fst snd] in Hparts, Hless. cbn [String.length] in Hlen, Hless.
    rewrite <- Hparts in Hplain. rewrite occurs_app in Hplain.
    apply orb_false_elim in Hplain as [Hbuffer Hfp].
    rewrite IH by (lia || exact Hfp).
    rewrite c_string_plain by exact Hbuffer.
    rewrite append_assoc, Hparts. reflexivity.
Qed.

Lemma blanks_plain s : all_in " " s = true -> occurs Ascii.zero s = false.
Proof.
  induction s as [| c r IH]; intros Hs; [reflexivity |].
  change (all_in " " (String c r))
    with ((Ascii.eqb " " c || false) && all_in " " r) in Hs.
  apply andb_prop in Hs as [Hc Hr].
  rewrite orb_false_r in Hc. apply Ascii.eqb_eq in Hc. subst c.
  cbn [occurs]. rewrite IH by exact Hr. reflexivity.
Qed.

Lemma string_of_uint_plain d : occurs Ascii.zero (NilEmpty.string_of_uint d) = false.
Proof. induction d; cbn [NilEmpty.string_of_uint occurs]; [reflexivity | ..]; rewrite IHd; reflexivity. Qed.

Lemma to_string_plain n : occurs Ascii.zero (to_string n) = false.
Proof.
  unfold to_string. destruct (Z.to_int n); cbn [NilEmpty.string_of_int].
  - apply string_of_uint_plain.
  - cbn [occurs]. rewrite string_of_uint_plain. reflexivity.
Qed.

End Response.

(** X5. [getMemoryUsage] returns the number [ps] prints: when the
    command prints blanks, the decimal digits of an [int] and a newline,
    that [int] is the result and nothing is logged. *)
Theorem getMemoryUsage_reads popen nPid pad n :
  all_in " " pad = true -> Cxx.INT_MIN <= n <= Cxx.INT_MAX ->
  popen ("ps o rss= -p " ++ Cxx.to_string nPid)%string = Some (pad ++ Cxx.to_string n ++ LF)%string ->
  getMemoryUsage popen nPid = (n, []).
Proof.
  intros Hpad Hn Hout. unfold getMemoryUsage. rewrite Hout. cbv zeta.
  rewrite read_response_plain;
    [| reflexivity
     | rewrite !occurs_app, (blanks_plain _ Hpad), to_string_plain; reflexivity].
  cbn [append].
  rewrite (stoi_to_string pad n LF Hpad); [reflexivity | reflexivity | exact Hn].
Qed.

Lemma getMemoryUsage_reads_witness :
  all_in " " "  " = true /\ Cxx.INT_MIN <= 524288 <= Cxx.INT_MAX
  /\ getMemoryUsage (fun cmd => Some ("  524288" ++ LF)%string) 4242 = (524288, []).
Proof.
  assert (Hpad : all_in " " "  " = true) by reflexivity.
  assert (Hn : Cxx.INT_MIN <= 524288 <= Cxx.INT_MAX) by (vm_compute; split; discriminate).
  split; [exact Hpad |]. split; [exact Hn |].
  apply (getMemoryUsage_reads (fun cmd => Some ("  524288" ++ LF)%string) 4242 "  " 524288 Hpad Hn).
  reflexivity.
Defined.

(** X6. [getMemoryUsage] when there is no number to read.  Without a
    stream from [popen] the result is zero and nothing is logged; when
    the command prints nothing, or blanks only, as [ps] does for a process
    that is gone, the result is [-1] and one warning is logged. *)
Theorem getMemoryUsage_no_number popen nPid :
  let cmd := ("ps o rss= -p " ++ Cxx.to_string nPid)%string in
  (popen cmd = None -> getMemoryUsage popen nPid = (0, []))
  /\ (forall out, all_in " " out = true -> popen cmd = Some out ->
      getMemoryUsage popen nPid = (-1, ["Trying to find memory of invalid/dead PID"])).
Proof.
  intros cmd. unfold getMemoryUsage. fold cmd. split.
  - intros ->. reflexivity.
  - intros out Hblank ->. cbv zeta.
    rewrite read_response_plain by (reflexivity || exact (blanks_plain _ Hblank)).
    cbn [append]. rewrite (stoi_blank _ Hblank). reflexivity.
Qed.

Lemma getMemoryUsage_no_number_witness :
  all_in " " EmptyString = true
  /\ getMemoryUsage (fun _ => Some EmptyString) 4242
     = (-1, ["Trying to find memory of invalid/dead PID"])
  /\ getMemoryUsage (fun _ => None) 4242 = (0, []).
Proof.
  split; [reflexivity |]. split.
  - apply (proj2 (getMemoryUsage_no_number (fun _ => Some EmptyString) 4242) EmptyString);
      reflexivity.
  - apply (proj1 (getMemoryUsage_no_number (fun _ => None) 4242)). reflexivity.
Defined.

Lemma getNext_guarded_witness :
  _rngMutex (start env0) = false
  /\ rng.raced
       (rng.run_threads env0 [0; 1; 1; 0; 2; 0; 1; 1; 2; 0; 2; 2]%nat
          (rng.threads (map rng.getNext_calls [2; 1; 1]%nat) (start env0))) = [].
Proof.
  split; [reflexivity |].
  apply (getNext_guarded env0 [2; 1; 1]%nat [0; 1; 1; 0; 2; 0; 1; 1; 2; 0; 2; 2]%nat (start env0)).
  reflexivity.
Defined.

(** ** More on the identifiers *)

Section Identifiers.
Import Cxx.

Lemma length_append (s t : string) :
  String.length (s ++ t) = (String.length s + String.length t)%nat.
Proof. induction s as [| c r IH]; simpl; [reflexivity | rewrite IH; reflexivity]. Qed.

Lemma length_fill n c : String.length (fill n c) = n.
Proof. induction n as [| n IH]; simpl; [reflexivity | rewrite IH; reflexivity]. Qed.

(** A number below [16^k] has at most [k] digits. *)
Lemma length_hex_aux fuel :
  forall n acc k, 0 <= n < 16 ^ Z.of_nat k -> (0 < k)%nat ->
    (String.length (hex_aux fuel n acc) <= k + String.length acc)%nat.
Proof.
  induction fuel as [| f IH]; intros n acc k Hn Hk; simpl; [lia |].
  destruct (n <? 16) eqn:Hlt; [simpl; lia |].
  apply Z.ltb_ge in Hlt.
  destruct k as [| [| k]]; [lia | simpl in Hn; lia |].
  specialize (IH (n / 16) (String (hex_digit (n mod 16)) acc) (S k)).
  simpl String.length in IH.
  assert (Hdiv : 0 <= n / 16 < 16 ^ Z.of_nat (S k)).
  { split; [apply Z.div_pos; lia |].
    apply Z.div_lt_upper_bound; [lia |].
    rewrite (Nat2Z.inj_succ (S k)), Z.pow_succ_r in Hn by lia. lia. }
  specialize (IH Hdiv ltac:(lia)). lia.
Qed.

Lemma length_hex n k :
  0 <= n < 16 ^ Z.of_nat k -> (0 < k)%nat -> (1 <= String.length (hex n) <= k)%nat.
Proof.
  intros Hn Hk. split.
  - destruct (hex_spec n) as (d & -> & Hne & _); [lia |].
    destruct d; [congruence | simpl; lia].
  - pose proof (length_hex_aux (S (Z.to_nat (Z.log2 n))) n EmptyString k Hn Hk) as Hle.
    unfold hex. change (String.length EmptyString) with 0%nat in Hle. lia.
Qed.


Lemma encodeId_digits n p :
  0 <= n ->
  encodeId n p <> EmptyString /\ all_hex (encodeId n p) = true
  /\ read_hex (encodeId n p) 0 = n.
Proof.
  intros Hn. unfold encodeId, put_hex.
  destruct (hex_spec n) as (d & -> & Hne & Hall & Hval); [lia |].
  set (k := Z.to_nat _). repeat split.
  - destruct k; simpl; [exact Hne | discriminate].
  - rewrite all_hex_app, all_hex_fill, Hall. reflexivity.
  - rewrite read_hex_app by apply all_hex_fill. rewrite read_hex_fill. exact Hval.
Qed.


End Identifiers.

(** X7. [encodeId] pads and never cuts: the text has at least [padding]
    characters, all of them hexadecimal digits, and exactly [padding]
    when the number is below [16^padding]. *)
Theorem encodeId_width n p :
  0 <= n ->
  Cxx.all_hex (encodeId n p) = true
  /\ p <= Z.of_nat (String.length (encodeId n p))
  /\ (0 < p -> n < 16 ^ p -> Z.of_nat (String.length (encodeId n p)) = p).
Proof.
  intros Hn. split; [apply (encodeId_digits n p Hn) |].
  unfold encodeId, Cxx.put_hex. rewrite length_append, length_fill.
  split; [lia |]. intros Hp Hlt.
  pose proof (length_hex n (Z.to_nat p)) as Hlen.
  rewrite Z2Nat.id in Hlen by lia. specialize (Hlen ltac:(lia) ltac:(lia)). lia.
Qed.

Lemma encodeId_width_witness :
  0 <= 2016
  /\ encodeId 2016 5 = "007e0"
  /\ Z.of_nat (String.length (encodeId 2016 5)) = 5.
Proof.
  assert (Hn : 0 <= 2016) by lia.
  split; [exact Hn |]. split; [reflexivity |].
  apply (encodeId_width 2016 5 Hn); [lia | vm_compute; reflexivity].
Defined.



(** ** The generator in one thread *)

Lemma getNext_times_from env k :
  forall st,
    length (fst (getNext_times env k st)) = k
    /\ (forall i, (i < k)%nat ->
        fst (getNext_times env k st) !! i
        = Some (mt_output env (mt_seed (_rng st)) (mt_drawn (_rng st) + N.of_nat i) mod 2 ^ 32))
    /\ _rng (snd (getNext_times env k st))
       = {| mt_seed := mt_seed (_rng st); mt_drawn := mt_drawn (_rng st) + N.of_nat k |}
    /\ ((0 < k)%nat -> _rngMutex (snd (getNext_times env k st)) = false).
Proof.
  induction k as [| k IH]; intros st.
  - simpl. repeat split; try lia. rewrite N.add_0_r. destruct (_rng st); reflexivity.
  - cbn [getNext_times].
    destruct (rng.getNext env st) as [v st1] eqn:Hnext.
    unfold rng.getNext in Hnext. simpl in Hnext. injection Hnext as <- <-.
    match goal with
    | |- context [getNext_times env k ?s] =>
        destruct (IH s) as (Hlen & Hnth & Hrng & Hmutex);
        destruct (getNext_times env k s) as [vs st2] eqn:Htimes
    end.
    simpl in *. split; [lia |]. split; [| split].
    + intros [| i] Hi; simpl.
      * rewrite N.add_0_r. reflexivity.
      * rewrite Hnth by lia. do 3 f_equal. lia.
    + rewrite Hrng. f_equal. lia.
    + intros _. destruct k as [| k']; [| apply Hmutex; lia].
      simpl in Htimes. injection Htimes as _ <-. reflexivity.
Qed.

(** X9. After [reseed] the draws begin anew: call number [i] of [getNext]
    returns value number [i] of the generator seeded afresh, as an
    [unsigned]; the generator has then given as many values as there were
    calls, and the mutex is free again. *)
Theorem getNext_after_reseed env st k :
  (0 < k)%nat ->
  let run := getNext_times env k (rng.reseed env st) in
  length (fst run) = k
  /\ (forall i, (i < k)%nat ->
      fst run !! i = Some (mt_output env (fresh_seed env) (N.of_nat i) mod 2 ^ 32))
  /\ (forall v, v ∈ fst run -> 0 <= v <= Cxx.UINT_MAX)
  /\ _rng (snd run) = {| mt_seed := fresh_seed env; mt_drawn := N.of_nat k |}
  /\ _rngMutex (snd run) = false.
Proof.
  intros Hk run.
  destruct (getNext_times_from env k (rng.reseed env st)) as (Hlen & Hnth & Hrng & Hmutex).
  fold run in Hlen, Hnth, Hrng, Hmutex.
  change (_rng (rng.reseed env st)) with {| mt_seed := fresh_seed env; mt_drawn := 0 |} in *.
  simpl mt_seed in *. simpl mt_drawn in *.
  split; [exact Hlen |]. split; [exact Hnth |]. split; [| split; [exact Hrng | apply Hmutex, Hk]].
  intros v Hv. apply list_elem_of_lookup in Hv as [i Hi].
  assert (Hlt : (i < k)%nat) by (rewrite <- Hlen; eapply lookup_lt_Some; exact Hi).
  rewrite (Hnth i Hlt) in Hi. injection Hi as <-.
  unfold Cxx.UINT_MAX.
  pose proof (Z.mod_pos_bound (mt_output env (fresh_seed env) (0 + N.of_nat i)) (2 ^ 32)
                ltac:(reflexivity)).
  lia.
Qed.

Lemma getNext_after_reseed_witness :
  (0 < 3)%nat
  /\ fst (getNext_times env0 3 (rng.reseed env0 (snd (rng.getNext env0 (start env0)))))
     = [2016; 2017; 2018].
Proof.
  assert (Hk : (0 < 3)%nat) by lia.
  split; [exact Hk |].
  pose proof (getNext_after_reseed env0 (snd (rng.getNext env0 (start env0))) 3 Hk)
    as (_ & Hnth & _).
  apply list_eq. intros [| [| [| i]]]; [| | | reflexivity].
  - exact (Hnth 0%nat ltac:(lia)).
  - exact (Hnth 1%nat ltac:(lia)).
  - exact (Hnth 2%nat ltac:(lia)).
Defined.

(** ** Installing the handlers and delivering signals *)

Section Installed.
Context `{Signum}.

Lemma dumpBacktrace_frame env st :
  dumpBacktrace env st = with_events_of st (events (dumpBacktrace env st)).
Proof.
  unfold dumpBacktrace.
  destruct (0 <? _); [| destruct st; reflexivity].
  destruct (backtrace_symbols _ _); [| destruct st; reflexivity].
  destruct (writev_result env =? -1); destruct st; reflexivity.
Qed.

Lemma deliver_termination env signo st :
  sigactions st !! signo = Some HandleTermination ->
  deliver env signo st = handleTerminationSignal signo st.
Proof. intros Hs. unfold deliver. rewrite Hs. reflexivity. Qed.

Lemma deliver_fatal env signo st :
  sigactions st !! signo = Some HandleFatal ->
  deliver env signo st = handleFatalSignal env signo st.
Proof. intros Hs. unfold deliver. rewrite Hs. reflexivity. Qed.

Lemma sigactions_handleTerminationSignal signal st :
  sigactions (handleTerminationSignal signal st) = sigactions st.
Proof. unfold handleTerminationSignal. destruct (TerminationFlag st); reflexivity. Qed.

Lemma sigactions_setTerminationSignals st s :
  sigactions (setTerminationSignals st) !! s
  = if bool_decide (s ∈ termination_signals) then Some HandleTermination
    else sigactions st !! s.
Proof.
  unfold setTerminationSignals, sigaction, termination_signals. simpl.
  repeat (rewrite lookup_insert; case_decide;
          [subst; rewrite bool_decide_eq_true_2 by set_solver; reflexivity |]).
  rewrite bool_decide_eq_false_2; [reflexivity |].
  rewrite !elem_of_cons, elem_of_nil. intuition congruence.
Qed.

Lemma sigactions_setFatalSignals env st s :
  sigactions (setFatalSignals env st) !! s
  = if bool_decide (s ∈ fatal_signals) then Some HandleFatal else sigactions st !! s.
Proof.
  unfold setFatalSignals, sigaction, fatal_signals. simpl.
  repeat (rewrite lookup_insert; case_decide;
          [subst; rewrite bool_decide_eq_true_2 by set_solver; reflexivity |]).
  rewrite bool_decide_eq_false_2; [reflexivity |].
  rewrite !elem_of_cons, elem_of_nil. intuition congruence.
Qed.

Lemma handleFatalSignal_events env signal st :
  pending (handleFatalSignal env signal st) = (pending st ++ [signal])%list
  /\ sigactions (handleFatalSignal env signal st) !! signal = Some SIG_DFL.
Proof.
  unfold handleFatalSignal, kill. rewrite dumpBacktrace_frame.
  destruct (LOOL_DEBUG env); simpl; (split; [reflexivity | apply lookup_insert_eq]).
Qed.

(** X11. With the nine signal numbers distinct, the two installers do not
    disturb each other: called in either order, they leave the
    termination handler on the four termination signals, the fatal
    handler on the five fatal signals, and every other disposition as it
    was. *)
Theorem handlers_installed env st (s : Z) :
  NoDup (termination_signals ++ fatal_signals)%list ->
  let both := setFatalSignals env (setTerminationSignals st) in
  let both' := setTerminationSignals (setFatalSignals env st) in
  sigactions both !! s = sigactions both' !! s
  /\ (s ∈ termination_signals -> sigactions both !! s = Some HandleTermination)
  /\ (s ∈ fatal_signals -> sigactions both !! s = Some HandleFatal)
  /\ (s ∉ (termination_signals ++ fatal_signals)%list ->
      sigactions both !! s = sigactions st !! s).
Proof.
  intros Hnd both both'. unfold both, both'.
  rewrite sigactions_setFatalSignals, !sigactions_setTerminationSignals,
    sigactions_setFatalSignals.
  apply NoDup_app in Hnd as (_ & Hdisjoint & _).
  destruct (bool_decide (s ∈ termination_signals)) eqn:Ht;
    destruct (bool_decide (s ∈ fatal_signals)) eqn:Hf;
    try apply bool_decide_eq_true in Ht; try apply bool_decide_eq_false in Ht;
    try apply bool_decide_eq_true in Hf; try apply bool_decide_eq_false in Hf.
  - exfalso. exact (Hdisjoint s Ht Hf).
  - repeat split; try reflexivity; intros; try contradiction.
    exfalso. rewrite elem_of_app in *. tauto.
  - repeat split; try reflexivity; intros; try contradiction.
    exfalso. rewrite elem_of_app in *. tauto.
  - repeat split; try reflexivity; intros; contradiction.
Qed.

(** X12. The fatal handler keeps off the rest of the process: it does
    not touch the generator or its mutex, the counter of [UniqueId], the
    termination flag or the text for the debugger, and it changes the
    disposition of no signal but the one it was called for. *)
Theorem handleFatalSignal_frame env signal st :
  let st' := handleFatalSignal env signal st in
  _rng st' = _rng st /\ _rngMutex st' = _rngMutex st /\ counter st' = counter st
  /\ TerminationFlag st' = TerminationFlag st /\ FatalGdbString st' = FatalGdbString st
  /\ sigactions st' = <[signal := SIG_DFL]> (sigactions st).
Proof.
  intros st'. unfold st', handleFatalSignal, kill.
  rewrite dumpBacktrace_frame.
  destruct (LOOL_DEBUG env); repeat split.
Qed.

(** X14. The course of a fatal signal.  With the fatal handler on the
    signal and no signal pending, its delivery runs the handler, and the
    delivery of what is then pending is the default action of the same
    signal: the handler has run once, nothing is pending any more, and the
    last thing that happens is the default action. *)
Theorem fatal_signal_course env signal st :
  sigactions st !! signal = Some HandleFatal -> pending st = [] ->
  let handled := deliver env signal st in
  let st' := deliver_pending env handled in
  handled = handleFatalSignal env signal st
  /\ pending handled = [signal]
  /\ st' = emit (Default_action signal) (with_pending [] handled)
  /\ pending st' = []
  /\ deliver_pending env st' = st'.
Proof.
  intros Hfatal Hpending handled st'.
  assert (Hhandled : handled = handleFatalSignal env signal st) by apply deliver_fatal, Hfatal.
  destruct (handleFatalSignal_events env signal st) as (Hpend & Hdfl).
  rewrite <- Hhandled in Hpend, Hdfl. rewrite Hpending in Hpend. simpl in Hpend.
  assert (Hst' : st' = emit (Default_action signal) (with_pending [] handled)).
  { unfold st', deliver_pending. rewrite Hpend. unfold deliver.
    change (sigactions (with_pending [] handled)) with (sigactions handled).
    rewrite Hdfl. reflexivity. }
  split; [exact Hhandled |]. split; [exact Hpend |]. split; [exact Hst' |].
  rewrite Hst'. split; reflexivity.
Qed.

End Installed.

Lemma handlers_installed_witness :
  NoDup (@termination_signals linux ++ @fatal_signals linux)%list
  /\ sigactions (@setFatalSignals linux env0 (@setTerminationSignals linux (start env0))) !! 11
     = Some HandleFatal
  /\ sigactions (@setFatalSignals linux env0 (@setTerminationSignals linux (start env0))) !! 15
     = Some HandleTermination
  /\ sigactions (@setFatalSignals linux env0 (@setTerminationSignals linux (start env0))) !! 10
     = None.
Proof.
  assert (Hnd : NoDup (@termination_signals linux ++ @fatal_signals linux)%list)
    by (apply (bool_decide_unpack _); vm_compute; exact I).
  split; [exact Hnd |].
  split; [| split].
  - apply (@handlers_installed linux env0 (start env0) 11 Hnd).
    apply (bool_decide_unpack _). vm_compute. exact I.
  - apply (@handlers_installed linux env0 (start env0) 15 Hnd).
    apply (bool_decide_unpack _). vm_compute. exact I.
  - pose proof (@handlers_installed linux env0 (start env0) 10 Hnd) as (_ & _ & _ & Hother).
    rewrite Hother; [reflexivity |].
    apply (bool_decide_unpack _). vm_compute. exact I.
Defined.

Lemma fatal_signal_course_witness :
  sigactions (@setFatalSignals linux env0 (start env0)) !! 11 = Some HandleFatal
  /\ pending (@setFatalSignals linux env0 (start env0)) = []
  /\ pending (@deliver linux env0 11 (@setFatalSignals linux env0 (start env0))) = [11]
  /\ pending (@deliver_pending linux env0
                (@deliver linux env0 11 (@setFatalSignals linux env0 (start env0)))) = [].
Proof.
  assert (Hfatal : sigactions (@setFatalSignals linux env0 (start env0)) !! 11 = Some HandleFatal)
    by reflexivity.
  assert (Hpending : pending (@setFatalSignals linux env0 (start env0)) = []) by reflexivity.
  split; [exact Hfatal |]. split; [exact Hpending |].
  pose proof (@fatal_signal_course linux env0 11 _ Hfatal Hpending) as (_ & Hone & _ & Hnone & _).
  split; [exact Hone | exact Hnone].
Defined.

(** ** The length and the characters of a file name *)

Section Base64.
Import Cxx Poco.

Lemma length_substr0_min s n : String.length (substr0 s n) = Nat.min n (String.length s).
Proof.
  revert s. induction n as [| n IH]; intros [| c r]; simpl; try reflexivity.
  rewrite IH. reflexivity.
Qed.

Lemma length_replace_char a b s : String.length (replace_char a b s) = String.length s.
Proof. induction s as [| c r IH]; simpl; [reflexivity | rewrite IH; reflexivity]. Qed.

Lemma substr0_ge s n : (String.length s <= n)%nat -> substr0 s n = s.
Proof.
  revert s. induction n as [| n IH]; intros [| c r] Hn; simpl in *; try reflexivity; try lia.
  rewrite IH by lia. reflexivity.
Qed.

Lemma substr0_app_le s t n : (n <= String.length s)%nat -> substr0 (s ++ t) n = substr0 s n.
Proof.
  revert s. induction n as [| n IH]; intros [| c r] Hn; simpl in *; try reflexivity; try lia.
  - destruct t; reflexivity.
  - rewrite IH by lia. reflexivity.
Qed.

Lemma substr0_substr0 s n m : (n <= m)%nat -> substr0 (substr0 s m) n = substr0 s n.
Proof.
  revert s m. induction n as [| n IH]; intros [| c r] [| m] Hn; simpl; try reflexivity; try lia.
  rewrite IH by lia. reflexivity.
Qed.

Lemma write_app cs cs' b : write (cs ++ cs') b = write cs' (write cs b).
Proof. apply fold_left_app. Qed.

Lemma encoded_start : encoded 0 Base64Encoder.
Proof. repeat split. Qed.

(** One more byte. *)
Lemma encoded_step k c b : 0 <= k -> encoded k b -> encoded (k + 1) (writeToDevice c b).
Proof.
  intros Hk (Hline & Hgroup & Hpos & Hlen). unfold encoded, b64_length in *.
  pose proof (Z.div_mod k 3 ltac:(lia)) as Hk3.
  pose proof (Z.mod_pos_bound k 3 ltac:(lia)) as Hr3.
  pose proof (Z.div_mod (k + 1) 3 ltac:(lia)) as Hk3'.
  pose proof (Z.mod_pos_bound (k + 1) 3 ltac:(lia)) as Hr3'.
  pose proof (Z.div_mod (4 * (k / 3)) 72 ltac:(lia)) as Hq.
  pose proof (Z.mod_pos_bound (4 * (k / 3)) 72 ltac:(lia)) as Hqr.
  pose proof (Z.div_mod (4 * ((k + 1) / 3)) 72 ltac:(lia)) as Hq'.
  pose proof (Z.mod_pos_bound (4 * ((k + 1) / 3)) 72 ltac:(lia)) as Hqr'.
  unfold writeToDevice.
  destruct (_group b) as [| g0 [| g1 [| g2 more]]]; simpl length in Hgroup; simpl app.
  - simpl. repeat split; try assumption; lia.
  - simpl. repeat split; try assumption; lia.
  - rewrite Hline. change (0 <? 72) with true. cbv iota. simpl andb.
    destruct (72 <=? _pos b + 4) eqn:Hbreak;
      [apply Z.leb_le in Hbreak | apply Z.leb_gt in Hbreak]; simpl;
      rewrite ?length_append; simpl String.length; repeat split; try assumption; lia.
  - lia.
Qed.

Lemma encoded_write cs :
  forall k b, 0 <= k -> encoded k b -> encoded (k + Z.of_nat (length cs)) (write cs b).
Proof.
  induction cs as [| c cs IH]; intros k b Hk Hb.
  - simpl. rewrite Z.add_0_r. exact Hb.
  - change (write (c :: cs) b) with (write cs (writeToDevice c b)).
    cbn [length]. rewrite Nat2Z.inj_succ.
    replace (k + Z.succ (Z.of_nat (length cs))) with (k + 1 + Z.of_nat (length cs)) by lia.
    apply IH; [lia | apply encoded_step; assumption].
Qed.

(** The bytes in front of the first NUL. *)
Lemma c_str_first_NUL front back :
  Forall (fun c => c <> x00) front -> c_str (front ++ x00 :: back) = front.
Proof.
  induction 1 as [| c front Hc _ IH]; simpl; [reflexivity |].
  destruct (Byte.eqb c x00) eqn:Heq; [| rewrite IH; reflexivity].
  apply Byte.byte_dec_bl in Heq. congruence.
Qed.

Lemma getBytes_split dev length i :
  (i < length)%nat ->
  rng.getBytes dev length
  = (rng.getBytes dev i ++ dev i :: map dev (seq (S i) (length - S i)))%list.
Proof.
  intros Hi. unfold rng.getBytes.
  replace length with (i + S (length - S i))%nat at 1 by lia.
  rewrite seq_app, map_app. reflexivity.
Qed.

Lemma written_first_NUL dev beyond length i :
  (i < length)%nat -> dev i = x00 -> (forall j, (j < i)%nat -> dev j <> x00) ->
  c_str (rng.getBytes dev length ++ beyond) = rng.getBytes dev i.
Proof.
  intros Hi Hnul Hfront. rewrite (getBytes_split dev length i Hi), Hnul, <- app_assoc.
  apply c_str_first_NUL. unfold rng.getBytes.
  apply Forall_forall. intros c Hc. apply list_elem_of_In, in_map_iff in Hc as (j & <- & Hj).
  apply Hfront. apply in_seq in Hj. lia.
Qed.

Lemma length_getBytes dev length : List.length (rng.getBytes dev length) = length.
Proof. unfold rng.getBytes. rewrite length_map, length_seq. reflexivity. Qed.

Lemma length_getB64String dev beyond length :
  Z.of_nat (String.length (rng.getB64String dev beyond length))
  = Z.min (Z.of_nat length)
      (b64_length (Z.of_nat (List.length (c_str (rng.getBytes dev length ++ beyond))))).
Proof.
  unfold rng.getB64String.
  destruct (encoded_write (c_str (rng.getBytes dev length ++ beyond)) 0 Base64Encoder
              ltac:(lia) encoded_start) as (_ & _ & _ & Hlen).
  rewrite Z.add_0_l in Hlen. cbv zeta.
  rewrite length_substr0_min, Nat2Z.inj_min, Hlen. reflexivity.
Qed.

Lemma length_getFilename dev beyond length :
  String.length (rng.getFilename dev beyond length)
  = String.length (rng.getB64String dev beyond length).
Proof.
  unfold rng.getFilename.
  rewrite length_substr0_min, length_replace_char.
  pose proof (length_substr0 (_buf (write (c_str (rng.getBytes dev length ++ beyond)) Base64Encoder)) length).
  unfold rng.getB64String. lia.
Qed.

End Base64.

(** X15. How long a file name is.  With the first NUL of the random
    bytes at offset [i], the encoder gets [i] bytes and passes on four
    characters for each three of them, and a line break after each 72
    characters; the name is that, cut to [length].  So the name has
    [length] characters exactly when these are at least [length]. *)
Theorem getFilename_length dev beyond length i :
  (i < length)%nat -> dev i = x00 -> (forall j, (j < i)%nat -> dev j <> x00) ->
  Z.of_nat (String.length (rng.getFilename dev beyond length))
  = Z.min (Z.of_nat length) (b64_length (Z.of_nat i)).
Proof.
  intros Hi Hnul Hfront.
  rewrite length_getFilename, length_getB64String.
  rewrite (written_first_NUL dev beyond length i Hi Hnul Hfront), length_getBytes.
  reflexivity.
Qed.

Lemma getFilename_length_witness :
  (20 < 24)%nat
  /\ String.length
       (rng.getFilename (fun i => if (i =? 20)%nat then x00 else x41) [] 24) = 24%nat
  /\ String.length
       (rng.getFilename (fun i => if (i =? 10)%nat then x00 else x41) [] 24) = 12%nat.
Proof.
  split; [lia |].
  pose proof (getFilename_length (fun i => if (i =? 20)%nat then x00 else x41) [] 24 20) as H20.
  pose proof (getFilename_length (fun i => if (i =? 10)%nat then x00 else x41) [] 24 10) as H10.
  split.
  - apply Nat2Z.inj. rewrite H20; [reflexivity | lia | reflexivity |].
    intros j Hj. destruct (Nat.eqb_spec j 20); [lia | discriminate].
  - apply Nat2Z.inj. rewrite H10; [reflexivity | lia | reflexivity |].
    intros j Hj. destruct (Nat.eqb_spec j 10); [lia | discriminate].
Defined.

Section Alphabet.
Import Cxx Poco.

Lemma get_occurs s : forall n c, String.get n s = Some c -> occurs c s = true.
Proof.
  induction s as [| d r IH]; intros n c Hget; [discriminate |].
  destruct n as [| n]; simpl in *.
  - injection Hget as ->. rewrite Ascii.eqb_refl. reflexivity.
  - rewrite (IH n c Hget). apply orb_true_r.
Qed.

Lemma encoding_in idx : occurs (encoding idx) OUT_ENCODING = true.
Proof.
  unfold encoding. destruct (String.get (Z.to_nat idx) OUT_ENCODING) eqn:Hget.
  - eapply get_occurs, Hget.
  - reflexivity.
Qed.

Lemma all_in_app alphabet s t :
  all_in alphabet (s ++ t) = all_in alphabet s && all_in alphabet t.
Proof.
  induction s as [| c r IH]; simpl; [reflexivity |].
  rewrite IH, andb_assoc. reflexivity.
Qed.

Lemma all_in_substr0 alphabet s n :
  all_in alphabet s = true -> all_in alphabet (substr0 s n) = true.
Proof.
  revert s. induction n as [| n IH]; intros [| c r] Hs; simpl in *; try reflexivity.
  apply andb_prop in Hs as [Hc Hr]. rewrite Hc, (IH r Hr). reflexivity.
Qed.

(** What [writeToDevice] passes on: nothing while the group is not full,
    and for a full group four characters of the alphabet and, at the end
    of a line, the line break. *)
Lemma writeToDevice_part c b :
  (length (_group b) < 2)%nat -> _buf (writeToDevice c b) = _buf b.
Proof.
  intros Hg. unfold writeToDevice.
  destruct (_group b) as [| g0 [| g1 more]]; simpl in *; [reflexivity | reflexivity | lia].
Qed.

Lemma writeToDevice_full c b :
  length (_group b) = 2%nat -> _lineLength b = 72 ->
  exists quad,
    String.length quad = 4%nat /\ all_in OUT_ENCODING quad = true
    /\ _buf (writeToDevice c b)
       = (_buf b ++ quad ++ (if (72 <=? _pos b + 4)%Z then CRLF else EmptyString))%string.
Proof.
  intros Hg Hline. unfold writeToDevice.
  destruct (_group b) as [| g0 [| g1 [| g2 more]]]; try discriminate.
  simpl app. rewrite Hline. change (0 <? 72) with true. cbv iota. simpl andb.
  eexists (String _ (String _ (String _ (String _ EmptyString)))).
  split; [reflexivity |]. split.
  - cbn [all_in]. rewrite !encoding_in. reflexivity.
  - destruct (72 <=? _pos b + 4); reflexivity.
Qed.

Lemma writeToDevice_extends c b : exists ext, _buf (writeToDevice c b) = (_buf b ++ ext)%string.
Proof.
  unfold writeToDevice.
  destruct (_group b ++ [Z.of_N (Byte.to_N c)])%list as [| g0 [| g1 [| g2 [| g3 more]]]];
    try (exists EmptyString; simpl; rewrite append_nil_r; reflexivity).
  destruct (_ && _); eexists; simpl; reflexivity.
Qed.

Lemma write_extends cs : forall b, exists ext, _buf (write cs b) = (_buf b ++ ext)%string.
Proof.
  induction cs as [| c cs IH]; intros b.
  - exists EmptyString. simpl. rewrite append_nil_r. reflexivity.
  - change (write (c :: cs) b) with (write cs (writeToDevice c b)).
    destruct (IH (writeToDevice c b)) as (ext & ->).
    destruct (writeToDevice_extends c b) as (ext' & ->).
    exists (ext' ++ ext)%string. apply append_assoc.
Qed.

(** The first 72 characters passed on are of the alphabet. *)
Lemma first_line_step k c b :
  0 <= k -> encoded k b ->
  all_in OUT_ENCODING (substr0 (_buf b) 72) = true ->
  all_in OUT_ENCODING (substr0 (_buf (writeToDevice c b)) 72) = true.
Proof.
  intros Hk (Hline & Hgroup & Hpos & Hlen) Hfirst. unfold b64_length in Hlen.
  pose proof (Z.mod_pos_bound k 3 ltac:(lia)) as Hr3.
  destruct (Z.eq_dec (k mod 3) 2) as [Hfull | Hpart];
    [| rewrite writeToDevice_part by lia; exact Hfirst].
  destruct (writeToDevice_full c b) as (quad & Hquad4 & Hquad & ->); [lia | exact Hline |].
  destruct (le_lt_dec 72 (String.length (_buf b))) as [Hlong | Hshort].
  - rewrite substr0_app_le by lia. exact Hfirst.
  - rewrite substr0_ge in Hfirst by lia.
    pose proof (Z.div_mod (4 * (k / 3)) 72 ltac:(lia)) as Hq.
    pose proof (Z.mod_pos_bound (4 * (k / 3)) 72 ltac:(lia)) as Hqr.
    assert (Hboth : all_in OUT_ENCODING (_buf b ++ quad) = true)
      by (rewrite all_in_app, Hfirst, Hquad; reflexivity).
    destruct (72 <=? _pos b + 4) eqn:Hbreak.
    + apply Z.leb_le in Hbreak. rewrite <- append_assoc.
      rewrite substr0_app_le by (rewrite length_append; lia).
      apply all_in_substr0, Hboth.
    + rewrite append_nil_r. apply all_in_substr0, Hboth.
Qed.

Lemma first_line_write cs :
  forall k b, 0 <= k -> encoded k b ->
    all_in OUT_ENCODING (substr0 (_buf b) 72) = true ->
    all_in OUT_ENCODING (substr0 (_buf (write cs b)) 72) = true.
Proof.
  induction cs as [| c cs IH]; intros k b Hk Hb Hfirst; [exact Hfirst |].
  change (write (c :: cs) b) with (write cs (writeToDevice c b)).
  apply (IH (k + 1)); [lia | apply encoded_step; assumption |].
  eapply first_line_step; eassumption.
Qed.

(** A character of the alphabet of the encoder, with [_] for [/], is one
    of the alphabet of names. *)
Lemma replace_slash_in c :
  occurs c OUT_ENCODING = true ->
  occurs (if Ascii.eqb c "/" then "_"%char else c) NAME_ALPHABET = true.
Proof.
  destruct c as [[] [] [] [] [] [] [] []]; vm_compute; intros Hc;
    try reflexivity; discriminate.
Qed.

Lemma all_in_replace_slash s :
  all_in OUT_ENCODING s = true -> all_in NAME_ALPHABET (replace_char "/" "_" s) = true.
Proof.
  induction s as [| c r IH]; intros Hs; [reflexivity |].
  change (all_in OUT_ENCODING (String c r))
    with (occurs c OUT_ENCODING && all_in OUT_ENCODING r) in Hs.
  apply andb_prop in Hs as [Hc Hr].
  change (all_in NAME_ALPHABET (replace_char "/" "_" (String c r)))
    with (occurs (if Ascii.eqb c "/" then "_"%char else c) NAME_ALPHABET
          && all_in NAME_ALPHABET (replace_char "/" "_" r)).
  rewrite (replace_slash_in c Hc), (IH Hr). reflexivity.
Qed.

End Alphabet.

(** X16. A file name of at most 72 characters is made of letters, digits,
    [+] and [_] only, whatever the random bytes are. *)
Theorem getFilename_alphabet dev beyond length :
  (length <= 72)%nat ->
  all_in NAME_ALPHABET (rng.getFilename dev beyond length) = true.
Proof.
  intros Hlength. unfold rng.getFilename, rng.getB64String. cbv zeta.
  apply all_in_substr0, all_in_replace_slash.
  rewrite <- (substr0_substr0 _ length 72 Hlength).
  apply all_in_substr0.
  apply (first_line_write _ 0 Poco.Base64Encoder); [lia | apply encoded_start | reflexivity].
Qed.

Lemma getFilename_alphabet_witness :
  (64 <= 72)%nat
  /\ all_in NAME_ALPHABET (rng.getFilename (fun i => if (i =? 60)%nat then x00 else xff) [] 64)
     = true.
Proof.
  assert (Hlength : (64 <= 72)%nat) by lia.
  split; [exact Hlength |].
  exact (getFilename_alphabet (fun i => if (i =? 60)%nat then x00 else xff) [] 64 Hlength).
Defined.

Section LineBreak.
Import Cxx Poco.

Lemma get_app_l s t n : (n < String.length s)%nat -> String.get n (s ++ t) = String.get n s.
Proof.
  revert n. induction s as [| c r IH]; intros n Hn; simpl in Hn; [lia |].
  destruct n as [| n]; simpl; [reflexivity | apply IH; lia].
Qed.

Lemma get_app_r s t n : String.get (String.length s + n) (s ++ t) = String.get n t.
Proof. induction s as [| c r IH]; simpl; [reflexivity | exact IH]. Qed.

Lemma get_substr0 s n m : (n < m)%nat -> String.get n (substr0 s m) = String.get n s.
Proof.
  revert s n. induction m as [| m IH]; intros [| c r] n Hn; simpl; try reflexivity; try lia.
  destruct n as [| n]; [reflexivity | apply IH; lia].
Qed.

Lemma get_replace_char a b s n :
  String.get n (replace_char a b s)
  = option_map (fun c => if Ascii.eqb c a then b else c) (String.get n s).
Proof.
  revert n. induction s as [| c r IH]; intros n; simpl; [reflexivity |].
  destruct n as [| n]; [reflexivity | apply IH].
Qed.

Lemma c_str_front front back :
  Forall (fun c => c <> x00) front -> c_str (front ++ back) = (front ++ c_str back)%list.
Proof.
  induction 1 as [| c front Hc _ IH]; simpl; [reflexivity |].
  destruct (Byte.eqb c x00) eqn:Heq; [| rewrite IH; reflexivity].
  apply Byte.byte_dec_bl in Heq. congruence.
Qed.

(** With 54 bytes written the first line is full: 72 characters, then
    the line break. *)
Lemma write_line_break cs :
  (54 <= length cs)%nat ->
  exists line rest,
    String.length line = 72%nat
    /\ _buf (write cs Base64Encoder) = (line ++ CRLF ++ rest)%string.
Proof.
  intros Hcs.
  destruct (lookup_lt_is_Some_2 cs 53 ltac:(lia)) as [c Hc].
  rewrite <- (take_drop_middle cs 53 c Hc).
  rewrite write_app. change (write (c :: ?l) ?b) with (write l (writeToDevice c b)).
  set (b53 := write (take 53 cs) Base64Encoder).
  assert (H53 : encoded 53 b53).
  { pose proof (encoded_write (take 53 cs) 0 Base64Encoder ltac:(lia) encoded_start) as He.
    rewrite length_take_le in He by lia. exact He. }
  destruct H53 as (Hline & Hgroup & Hpos & Hlen).
  change (53 mod 3) with 2 in Hgroup. change ((4 * (53 / 3)) mod 72) with 68 in Hpos.
  change (b64_length 53) with 68 in Hlen.
  destruct (writeToDevice_full c b53) as (quad & Hquad4 & _ & Hbuf); [lia | exact Hline |].
  rewrite Hpos in Hbuf. change (72 <=? 68 + 4) with true in Hbuf. cbv iota in Hbuf.
  destruct (write_extends (drop 54 cs) (writeToDevice c b53)) as (ext & Hext).
  exists (_buf b53 ++ quad)%string, ext. split.
  - rewrite length_append. lia.
  - rewrite Hext, Hbuf, !append_assoc. reflexivity.
Qed.

End LineBreak.

(** X17. A file name of 74 characters or more is not on one line: when
    the first 54 random bytes hold no NUL, the encoder ends its first line
    after 72 characters, and the name has a carriage return at offset 72
    and a newline at offset 73. *)
Theorem getFilename_line_break dev beyond length :
  (74 <= length)%nat -> (forall j, (j < 54)%nat -> dev j <> x00) ->
  String.get 72 (rng.getFilename dev beyond length) = Some (ascii_of_nat 13)
  /\ String.get 73 (rng.getFilename dev beyond length) = Some (ascii_of_nat 10).
Proof.
  intros Hlength Hfront.
  assert (Hwritten : (54 <= List.length (Poco.c_str (rng.getBytes dev length ++ beyond)))%nat).
  { rewrite (getBytes_split dev length 53) by lia.
    rewrite <- app_assoc, c_str_front.
    - rewrite length_app, length_getBytes. simpl.
      destruct (Byte.eqb (dev 53%nat) x00) eqn:Heq; [| simpl; lia].
      apply Byte.byte_dec_bl in Heq. exfalso. apply (Hfront 53%nat); [lia | exact Heq].
    - apply Forall_forall. intros c Hc. unfold rng.getBytes in Hc.
      apply list_elem_of_In, in_map_iff in Hc as (j & <- & Hj).
      apply Hfront. apply in_seq in Hj. lia. }
  destruct (write_line_break _ Hwritten) as (line & rest & Hline & Hbuf).
  unfold rng.getFilename, rng.getB64String. cbv zeta. rewrite Hbuf.
  rewrite !get_substr0, !get_replace_char, !get_substr0 by lia.
  split.
  - replace 72%nat with (String.length line + 0)%nat by lia.
    rewrite get_app_r. reflexivity.
  - replace 73%nat with (String.length line + 1)%nat by lia.
    rewrite get_app_r. reflexivity.
Qed.

Lemma getFilename_line_break_witness :
  (74 <= 80)%nat
  /\ String.get 72 (rng.getFilename (fun i => if (i =? 70)%nat then x00 else x41) [] 80)
     = Some (ascii_of_nat 13).
Proof.
  assert (Hlength : (74 <= 80)%nat) by lia.
  split; [exact Hlength |].
  apply (getFilename_line_break (fun i => if (i =? 70)%nat then x00 else x41) [] 80 Hlength).
  intros j Hj. destruct (Nat.eqb_spec j 70); [lia | discriminate].
Defined.

(** ** The names of different signals *)

Section NamesApart.
Context `{Signum}.

Lemma find_case_Some (cases : list (Z * string)) signo c :
  List.find (fun c => fst c =? signo) cases = Some c -> In c cases /\ fst c = signo.
Proof.
  intros Hfind. apply find_some in Hfind as [Hin Heq].
  split; [exact Hin | apply Z.eqb_eq, Heq].
Qed.

Lemma find_case_label (cases : list (Z * string)) signo :
  signo ∈ map fst cases -> List.find (fun c => fst c =? signo) cases <> None.
Proof.
  intros Hin Hnone. apply list_elem_of_In, in_map_iff in Hin as (c & Hc & Hcases).
  apply (find_none _ _ Hnone) in Hcases. apply Z.eqb_neq in Hcases. congruence.
Qed.

(** The names of the table are all different, and none is ["unknown"],
    whichever of the optional signals there are. *)
Lemma names_NoDup : NoDup ("unknown" :: map snd signal_cases).
Proof.
  unfold signal_cases, CASE_ifdef, CASE_if_differs.
  destruct SIGPOLL, SIGEMT, SIGSTKFLT, SIGIO, SIGPWR, SIGLOST, SIGINFO;
    repeat match goal with |- context [if ?b then _ else _] => destruct b end;
    apply (bool_decide_unpack _); vm_compute; exact I.
Qed.

Lemma name_one_label (cases : list (Z * string)) a b name :
  NoDup (map snd cases) -> In (a, name) cases -> In (b, name) cases -> a = b.
Proof.
  induction cases as [| [k v] rest IH]; intros Hnd Ha Hb; [destruct Ha |].
  simpl in Hnd. apply NoDup_cons in Hnd as [Hv Hrest].
  assert (Hnot : forall x, In (x, v) rest -> False).
  { intros x Hx. apply Hv, list_elem_of_In, in_map_iff. exists (x, v). auto. }
  destruct Ha as [Ha | Ha], Hb as [Hb | Hb].
  - injection Ha as <- _. injection Hb as <- _. reflexivity.
  - injection Ha as -> ->. destruct (Hnot b Hb).
  - injection Hb as -> ->. destruct (Hnot a Ha).
  - apply IH; assumption.
Qed.

(** X18. [signalName] tells the signals of its table apart: a signal
    that is a case label gets a name that no other number gets, and that
    is not ["unknown"]. *)
Theorem signalName_apart a b :
  a ∈ case_labels -> signalName a = signalName b ->
  a = b /\ signalName a <> "unknown".
Proof.
  intros Ha Hab. pose proof names_NoDup as Hnd. apply NoDup_cons in Hnd as [Hunknown Hnd].
  unfold signalName in *.
  pose proof (find_case_label _ _ Ha) as Hfa.
  destruct (List.find (fun c => fst c =? a) signal_cases) as [[ka na] |] eqn:Hfinda;
    [| congruence].
  apply find_case_Some in Hfinda as [Hina Hka]. cbn [fst snd] in Hka, Hab |- *. subst ka.
  assert (Hna : na <> "unknown").
  { intros ->. apply Hunknown, list_elem_of_In, in_map_iff. exists (a, "unknown"). auto. }
  split; [| exact Hna].
  destruct (List.find (fun c => fst c =? b) signal_cases) as [[kb nb] |] eqn:Hfindb;
    [| congruence].
  apply find_case_Some in Hfindb as [Hinb Hkb]. cbn [fst snd] in Hkb, Hab. subst kb nb.
  exact (name_one_label _ _ _ _ Hnd Hina Hinb).
Qed.

End NamesApart.

Lemma signalName_apart_witness :
  11 ∈ @case_labels linux
  /\ @signalName linux 11 = @signalName linux 11
  /\ @signalName linux 11 <> "unknown".
Proof.
  assert (Hlabel : 11 ∈ @case_labels linux) by (apply (bool_decide_unpack _); vm_compute; exact I).
  split; [exact Hlabel |]. split; [reflexivity |].
  exact (proj2 (@signalName_apart linux 11 11 Hlabel eq_refl)).
Defined.

(** ** The counter among the other calls *)

Section Counter.
Context `{Signum}.
Import Cxx.

Lemma wrap_int_int z : INT_MIN <= z <= INT_MAX -> wrap_int z = z.
Proof.
  unfold wrap_int, INT_MIN, INT_MAX.
  change (2 ^ 31) with 2147483648. change (2 ^ 32) with 4294967296.
  intros Hz. rewrite Z.mod_small by lia. lia.
Qed.

Lemma wrap_int_add a b : wrap_int (wrap_int a + b) = wrap_int (a + b).
Proof.
  unfold wrap_int. f_equal.
  replace ((a + 2 ^ 31) mod 2 ^ 32 - 2 ^ 31 + b + 2 ^ 31)
    with ((a + 2 ^ 31) mod 2 ^ 32 + b) by lia.
  rewrite Z.add_mod_idemp_l by (change (2 ^ 32) with 4294967296; lia).
  f_equal. lia.
Qed.

Lemma counter_exec env c st :
  counter (exec env c st)
  = match c with
    | Call_UniqueId => wrap_int (counter st + 1)
    | _ => counter st
    end.
Proof.
  destruct c as [| | dev beyond path | srcDir srcFilename | | | | signal | signal | signo |];
    simpl; try reflexivity.
  - unfold handleTerminationSignal. destruct (TerminationFlag st); reflexivity.
  - unfold handleFatalSignal, kill. rewrite dumpBacktrace_frame.
    destruct (LOOL_DEBUG env); reflexivity.
  - unfold deliver. destruct (sigactions st !! signo) as [[] |]; try reflexivity.
    + unfold handleTerminationSignal. destruct (TerminationFlag st); reflexivity.
    + unfold handleFatalSignal, kill. rewrite dumpBacktrace_frame.
      destruct (LOOL_DEBUG env); reflexivity.
  - unfold deliver_pending. destruct (pending st) as [| signo rest]; [reflexivity |].
    unfold deliver. change (sigactions (with_pending rest st)) with (sigactions st).
    destruct (sigactions st !! signo) as [[] |]; try reflexivity.
    + unfold handleTerminationSignal.
      change (TerminationFlag (with_pending rest st)) with (TerminationFlag st).
      destruct (TerminationFlag st); reflexivity.
    + unfold handleFatalSignal, kill. rewrite dumpBacktrace_frame.
      destruct (LOOL_DEBUG env); reflexivity.
Qed.

(** X19. Nothing but [UniqueId] moves its counter: after any calls of
    the module and deliveries of signals the counter is where it was,
    plus the number of calls of [UniqueId] among them (as an [int]), and
    the next identifier carries that number. *)
Theorem UniqueId_among_calls env (cs : list call) st :
  INT_MIN <= counter st <= INT_MAX ->
  counter (exec_all env cs st) = wrap_int (counter st + UniqueId_calls cs)
  /\ fst (UniqueId env (exec_all env cs st))
     = (to_string (getpid env) ++ "/"
        ++ to_string (wrap_int (counter st + UniqueId_calls cs)))%string.
Proof.
  intros Hrange.
  assert (Hcounter : counter (exec_all env cs st) = wrap_int (counter st + UniqueId_calls cs)).
  { unfold exec_all. revert st Hrange.
    induction cs as [| c rest IH]; intros st Hrange.
    - simpl. rewrite Z.add_0_r, wrap_int_int by exact Hrange. reflexivity.
    - cbn [fold_left]. pose proof (counter_exec env c st) as Hc.
      destruct c; cbn [UniqueId_calls];
        try (rewrite IH by (rewrite Hc; exact Hrange); rewrite Hc; reflexivity).
      rewrite IH by (rewrite Hc; apply wrap_int_range).
      rewrite Hc, wrap_int_add. f_equal. lia. }
  split; [exact Hcounter |].
  unfold UniqueId. simpl fst. rewrite Hcounter. reflexivity.
Qed.

End Counter.

Lemma UniqueId_among_calls_witness :
  Cxx.INT_MIN <= counter (start env0) <= Cxx.INT_MAX
  /\ fst (UniqueId env0
            (@exec_all linux env0
               [Call_UniqueId; Call_getNext; Signal_delivered 15; Call_UniqueId;
                Call_setFatalSignals; Call_reseed]
               (start env0))) = "4242/2".
Proof.
  assert (Hrange : Cxx.INT_MIN <= counter (start env0) <= Cxx.INT_MAX)
    by (vm_compute; split; discriminate).
  split; [exact Hrange |].
  exact (proj2 (@UniqueId_among_calls linux env0
                  [Call_UniqueId; Call_getNext; Signal_delivered 15; Call_UniqueId;
                   Call_setFatalSignals; Call_reseed]
                  (start env0) Hrange)).
Defined.

(** ** The pause for the debugger *)

Section DebugPause.
Context `{Signum}.

Lemma dumpBacktrace_no_sleep env st :
  exists dump,
    events (dumpBacktrace env st) = (events st ++ dump)%list
    /\ forallb (fun e => negb (is_sleep e)) dump = true.
Proof.
  unfold dumpBacktrace.
  destruct (0 <? _).
  - destruct (backtrace_symbols _ _) as [symbols |].
    + destruct (writev_result env =? -1);
        eexists; (split; [unfold syserror; rewrite ?events_emit, <- ?app_assoc; reflexivity |]);
        reflexivity.
    + eexists. split; [rewrite ?events_emit, <- ?app_assoc; reflexivity | reflexivity].
  - exists [Sys_backtrace 50]. split; reflexivity.
Qed.

(** X20. The fatal handler waits only in the debug mode.  With
    [LOOL_DEBUG] set it logs, after the line that names the signal, the
    text [setFatalSignals] has made ready, and sleeps 30 seconds, once,
    before it restores the disposition; without it the handler does not
    sleep at all. *)
Theorem handleFatalSignal_pause env signal st :
  exists dump,
    events (handleFatalSignal env signal st)
    = (events st
         ++ [Log_signalLogPrefix; Log_signalLog " Fatal signal received: ";
             Log_signalLog (signalName signal); Log_signalLog LF]
         ++ (if LOOL_DEBUG env
             then [Log_signalLog (FatalGdbString st); Sys_sleep 30] else [])
         ++ [Sys_sigaction signal SIG_DFL] ++ dump ++ [Sys_kill (getpid env) signal])%list
    /\ forallb (fun e => negb (is_sleep e)) dump = true.
Proof.
  unfold handleFatalSignal, kill. rewrite events_emit. simpl events.
  match goal with
  | |- context [dumpBacktrace env ?s] =>
      destruct (dumpBacktrace_no_sleep env s) as (dump & Hdump & Hquiet)
  end.
  exists dump. split; [| exact Hquiet].
  rewrite Hdump. unfold sigaction. rewrite events_emit. simpl events.
  destruct (LOOL_DEBUG env); unfold sleep, signalLog, signalLogPrefix;
    rewrite ?events_emit; simpl; rewrite <- ?app_assoc; reflexivity.
Qed.

End DebugPause.

(** ** The termination handler, interrupted *)

Section Interrupted.
Context `{Signum}.

Lemma signalName_listed signo : signalName signo ∈ "unknown" :: map snd signal_cases.
Proof.
  unfold signalName.
  destruct (List.find (fun c => fst c =? signo) signal_cases) as [c |] eqn:Hfind.
  - apply elem_of_cons. right. apply find_case_Some in Hfind as [Hin _].
    apply list_elem_of_In, in_map, Hin.
  - apply elem_of_cons. left. reflexivity.
Qed.

(** No name of a signal is a newline. *)
Lemma signalName_no_newline signo : String.eqb (signalName signo) LF = false.
Proof.
  apply String.eqb_neq. intros Hname.
  pose proof (signalName_listed signo) as Hin. rewrite Hname in Hin.
  revert Hin. unfold signal_cases, CASE_ifdef, CASE_if_differs.
  destruct SIGPOLL, SIGEMT, SIGSTKFLT, SIGIO, SIGPWR, SIGLOST, SIGINFO;
    repeat match goal with |- context [if ?b then _ else _] => destruct b end;
    apply (bool_decide_unpack _); vm_compute; exact I.
Qed.

Lemma occur_Delivers env m signo :
  blocked signo m = false -> sigactions (proc m) !! signo = Some HandleTermination ->
  occur env m (Delivers signo)
  = {| running := {| act_signal := signo; act_pc := At_test |} :: running m; proc := proc m |}.
Proof. intros Hfree Hhandler. unfold occur. rewrite Hfree, Hhandler. reflexivity. Qed.

Lemma blocked_quiet signo st : blocked signo (quiet st) = false.
Proof. unfold blocked. apply bool_decide_eq_false_2. simpl. apply not_elem_of_nil. Qed.

Lemma blocked_other signo a pc st :
  signo <> a ->
  blocked signo {| running := [{| act_signal := a; act_pc := pc |}]; proc := st |} = false.
Proof.
  intros Hne. unfold blocked. apply bool_decide_eq_false_2. simpl.
  rewrite elem_of_cons, elem_of_nil. tauto.
Qed.

Lemma occur_all_cons env o os m : occur_all env (o :: os) m = occur_all env os (occur env m o).
Proof. reflexivity. Qed.

Lemma occur_all_app env os os' m :
  occur_all env (os ++ os') m = occur_all env os' (occur_all env os m).
Proof. apply fold_left_app. Qed.

(** A run that nothing interrupts is a call of the handler. *)
Lemma whole_run_clear env signo outer st :
  TerminationFlag st = false ->
  occur_all env whole_run
    {| running := {| act_signal := signo; act_pc := At_test |} :: outer; proc := st |}
  = {| running := outer; proc := handleTerminationSignal signo st |}.
Proof.
  intros Hflag. unfold occur_all, whole_run, handleTerminationSignal.
  cbn [repeat fold_left occur running proc handler_step act_pc act_signal].
  rewrite Hflag. reflexivity.
Qed.

Lemma whole_run_set env signo st :
  TerminationFlag st = true ->
  occur_all env whole_run
    {| running := [{| act_signal := signo; act_pc := At_test |}]; proc := st |}
  = quiet st.
Proof.
  intros Hflag. unfold occur_all, whole_run.
  cbn [repeat fold_left occur running proc handler_step act_pc act_signal].
  rewrite Hflag. reflexivity.
Qed.

(** C3. Two termination signals, [a] and then [b].  Delivered in turn,
    the second after the handler has returned from the first, they do
    what is asked: the process is as after one call of the handler for
    [a], with the flag set and the one line that names [a].  But the
    handler for [a] blocks no signal but [a]: when [b] is delivered after
    the test of the flag and before the assignment, the run for [b] finds
    the flag clear, sets it and logs its line, and the run for [a], which
    has made its test, goes on to log a line of its own.  Two lines are
    logged, and the first of them is that of the second delivery. *)
Theorem handleTerminationSignal_interrupted env a b st :
  TerminationFlag st = false ->
  sigactions st !! a = Some HandleTermination ->
  sigactions st !! b = Some HandleTermination ->
  a <> b ->
  let in_turn :=
    occur_all env (Delivers a :: whole_run ++ Delivers b :: whole_run)%list (quiet st) in
  let nested :=
    occur_all env (Delivers a :: Resumes :: Delivers b :: whole_run ++ repeat Resumes 5)%list
      (quiet st) in
  in_turn = quiet (handleTerminationSignal a st)
  /\ events (proc in_turn) = (events st ++ termination_line a)%list
  /\ nested
     = quiet (with_events_of (with_flag true st)
                (events st ++ termination_line b ++ termination_line a))
  /\ lines_begun (termination_line b ++ termination_line a) = 2%nat.
Proof.
  intros Hflag Ha Hb Hne in_turn nested.
  assert (Hfirst : in_turn = quiet (handleTerminationSignal a st)).
  { unfold in_turn. rewrite occur_all_cons, occur_all_app, occur_all_cons.
    rewrite (occur_Delivers env (quiet st) a) by (apply blocked_quiet || exact Ha).
    cbn [quiet running proc]. rewrite whole_run_clear by exact Hflag.
    rewrite (occur_Delivers env _ b);
      [| apply (blocked_quiet b)
       | cbn [proc]; rewrite sigactions_handleTerminationSignal; exact Hb].
    cbn [running proc]. apply whole_run_set, handleTerminationSignal_sets. }
  split; [exact Hfirst |]. split.
  { rewrite Hfirst. cbn [quiet proc].
    rewrite handleTerminationSignal_first by exact Hflag. reflexivity. }
  split; [| reflexivity].
  unfold nested. rewrite !occur_all_cons, occur_all_app.
  rewrite (occur_Delivers env (quiet st) a) by (apply blocked_quiet || exact Ha).
  cbn [quiet running proc].
  assert (Htest : occur env {| running := [{| act_signal := a; act_pc := At_test |}];
                               proc := st |} Resumes
                  = {| running := [{| act_signal := a; act_pc := At_store |}]; proc := st |}).
  { cbn [occur running proc handler_step act_pc act_signal]. rewrite Hflag. reflexivity. }
  rewrite Htest.
  rewrite (occur_Delivers env _ b) by (apply blocked_other, not_eq_sym, Hne || exact Hb).
  cbn [running proc]. rewrite whole_run_clear by exact Hflag.
  rewrite handleTerminationSignal_first by exact Hflag.
  unfold occur_all.
  cbn [repeat fold_left occur running proc handler_step act_pc act_signal].
  unfold quiet, signalLog, signalLogPrefix, emit, with_flag, with_events_of, termination_line.
  cbn [TerminationFlag FatalGdbString counter _rng _rngMutex sigactions pending events].
  rewrite <- !app_assoc. reflexivity.
Qed.

(** *** Every order of deliveries and steps *)

Lemma count_cons {A} (f : A -> bool) (a : A) (l : list A) :
  count f (a :: l) = ((if f a then 1 else 0) + count f l)%nat.
Proof. unfold count. simpl. destruct (f a); reflexivity. Qed.

Lemma lines_begun_snoc es e :
  lines_begun (es ++ [e]) = (lines_begun es + (if begins_line e then 1 else 0))%nat.
Proof.
  unfold lines_begun. rewrite List.filter_app, length_app. simpl.
  destruct (begins_line e); reflexivity.
Qed.

Lemma lines_ended_snoc es e :
  lines_ended (es ++ [e]) = (lines_ended es + (if ends_line e then 1 else 0))%nat.
Proof.
  unfold lines_ended. rewrite List.filter_app, length_app. simpl.
  destruct (ends_line e); reflexivity.
Qed.

Lemma is_log_snoc es e :
  forallb is_log es = true -> is_log e = true -> forallb is_log (es ++ [e]) = true.
Proof. intros Hes He. rewrite forallb_app, Hes. simpl. rewrite He. reflexivity. Qed.

Lemma reached_quiet st : TerminationFlag st = false -> reached st 0 [] (quiet st).
Proof.
  intros Hflag. split; cbn [quiet running proc].
  - rewrite app_nil_r. destruct st; reflexivity.
  - reflexivity.
  - intros _. repeat split.
  - congruence.
  - reflexivity.
  - reflexivity.
Qed.

Lemma reached_occur env st d logged m o :
  reached st d logged m -> of_termination st o ->
  exists logged', reached st (deliveries [o] + d) logged' (occur env m o).
Proof.
  intros [Hproc Hlog Hclear Hset Hbound Hended] Ho.
  destruct m as [run p]. cbn [running proc] in *.
  assert (Hsig : sigactions p = sigactions st) by (rewrite Hproc; reflexivity).
  destruct o as [signo |]; cbn [deliveries Nat.add].
  - (* a delivery *)
    unfold occur. destruct (blocked signo _) eqn:Hblocked.
    + exists logged. split; cbn [running proc]; try assumption; [| lia].
      intros Hf. destruct (Hclear Hf) as (Hl & Hb & _). split; [exact Hl |]. split; [exact Hb |].
      intros ->. unfold blocked in Hblocked. cbn [running map] in Hblocked.
      apply bool_decide_eq_true in Hblocked. apply elem_of_nil in Hblocked. destruct Hblocked.
    + cbn [proc]. cbn [of_termination] in Ho. rewrite Hsig, Ho.
      exists logged. split; cbn [running proc]; rewrite ?count_cons; cbn [act_pc yet_to_log sure_to_log inside_line];
        try assumption.
      * intros Hf. destruct (Hclear Hf) as (Hl & Hb & _). split; [exact Hl |].
        split; [cbn; exact Hb | discriminate].
      * lia.
  - (* a step of the innermost run *)
    cbn [occur running]. destruct run as [| [s pc] outer].
    { exists logged. split; cbn [running proc]; assumption. }
    cbn [proc]. unfold handler_step. cbn [act_pc act_signal].
    rewrite !count_cons in *. clear Hsig Ho.
    destruct p as [f g c r mx sg pd es].
    unfold with_events_of, with_flag in Hproc.
    cbn [TerminationFlag FatalGdbString counter _rng _rngMutex sigactions pending events] in *.
    injection Hproc as -> -> -> -> -> -> ->.
    assert (Hin : forall pc', before_store {| act_signal := s; act_pc := pc' |} = false ->
                    pc = pc' -> f = true).
    { intros pc' Hpc' ->. destruct f; [reflexivity |].
      destruct (Hclear eq_refl) as (_ & Hb & _). cbn [forallb] in Hb.
      rewrite Hpc' in Hb. discriminate. }
    destruct pc; cbn [act_pc yet_to_log sure_to_log inside_line before_store forallb andb] in *.
    + (* the test *)
      destruct f; cbn [negb].
      * exists logged. split; cbn [running proc TerminationFlag]; try assumption; try lia;
          try reflexivity; try congruence.
      * exists logged. split; cbn [running proc TerminationFlag]; rewrite ?count_cons;
          cbn [act_pc yet_to_log sure_to_log inside_line before_store forallb andb];
          try assumption; try reflexivity; try congruence.
        intros _. destruct (Hclear eq_refl) as (Hl & Hb & _).
        split; [exact Hl |]. split; [exact Hb | discriminate].
    + (* the assignment *)
      exists logged. split; cbn [running proc TerminationFlag with_flag]; rewrite ?count_cons;
        cbn [act_pc yet_to_log sure_to_log inside_line before_store forallb andb];
        try assumption; try reflexivity; try congruence; try lia.
    + (* the prefix *)
      rewrite (Hin At_prefix eq_refl eq_refl) in *.
      exists (logged ++ [Log_signalLogPrefix])%list.
      split; cbn [running proc TerminationFlag signalLogPrefix emit events];
        rewrite ?count_cons, ?lines_begun_snoc, ?lines_ended_snoc;
        cbn [act_pc yet_to_log sure_to_log inside_line begins_line ends_line];
        try congruence; try lia.
      * unfold with_events_of, with_flag. cbn. rewrite app_assoc. reflexivity.
      * apply is_log_snoc; [exact Hlog | reflexivity].
    + (* the text *)
      rewrite (Hin At_text eq_refl eq_refl) in *. specialize (Hset eq_refl).
      exists (logged ++ [Log_signalLog " Termination signal received: "])%list.
      split; cbn [running proc TerminationFlag signalLog emit events];
        rewrite ?count_cons, ?lines_begun_snoc, ?lines_ended_snoc;
        cbn [act_pc yet_to_log sure_to_log inside_line begins_line];
        try congruence; try lia.
      * unfold with_events_of, with_flag. cbn. rewrite app_assoc. reflexivity.
      * apply is_log_snoc; [exact Hlog | reflexivity].
      * change (ends_line (Log_signalLog " Termination signal received: ")) with false.
        cbv iota. lia.
    + (* the name *)
      rewrite (Hin At_name eq_refl eq_refl) in *. specialize (Hset eq_refl).
      exists (logged ++ [Log_signalLog (signalName s)])%list.
      split; cbn [running proc TerminationFlag signalLog emit events];
        rewrite ?count_cons, ?lines_begun_snoc, ?lines_ended_snoc;
        cbn [act_pc yet_to_log sure_to_log inside_line begins_line ends_line];
        rewrite ?signalName_no_newline; cbv iota;
        try congruence; try lia.
      * unfold with_events_of, with_flag. cbn. rewrite app_assoc. reflexivity.
      * apply is_log_snoc; [exact Hlog | reflexivity].
    + (* the newline *)
      rewrite (Hin At_newline eq_refl eq_refl) in *. specialize (Hset eq_refl).
      exists (logged ++ [Log_signalLog LF])%list.
      split; cbn [running proc TerminationFlag signalLog emit events];
        rewrite ?count_cons, ?lines_begun_snoc, ?lines_ended_snoc;
        cbn [act_pc yet_to_log sure_to_log inside_line begins_line];
        change (ends_line (Log_signalLog LF)) with true; cbv iota;
        try congruence; try lia.
      * unfold with_events_of, with_flag. cbn. rewrite app_assoc. reflexivity.
      * apply is_log_snoc; [exact Hlog | reflexivity].
Qed.

Lemma reached_all env st os :
  forall d logged m,
    reached st d logged m -> Forall (of_termination st) os ->
    exists logged', reached st (deliveries os + d) logged' (occur_all env os m).
Proof.
  induction os as [| o rest IH]; intros d logged m Hm Hos.
  - exists logged. exact Hm.
  - apply Forall_cons in Hos as [Ho Hrest].
    destruct (reached_occur env st d logged m o Hm Ho) as (logged1 & H1).
    destruct (IH _ _ _ H1 Hrest) as (logged2 & H2).
    exists logged2. rewrite occur_all_cons.
    replace (deliveries (o :: rest) + d)%nat with (deliveries rest + (deliveries [o] + d))%nat
      by (destruct o; simpl; lia).
    exact H2.
Qed.

(** With the flag set and every run in progress in front of its test,
    nothing changes the process any more. *)
Lemma settled_occur env st m o :
  TerminationFlag (proc m) = true -> forallb at_test (running m) = true ->
  sigactions (proc m) = sigactions st -> of_termination st o ->
  proc (occur env m o) = proc m /\ forallb at_test (running (occur env m o)) = true.
Proof.
  intros Hflag Hfresh Hsig Ho. destruct m as [run p]. cbn [running proc] in *.
  destruct o as [signo |].
  - unfold occur. destruct (blocked signo _); [split; [reflexivity | exact Hfresh] |].
    cbn [proc]. cbn [of_termination] in Ho. rewrite Hsig, Ho.
    split; [reflexivity | exact Hfresh].
  - cbn [occur running]. destruct run as [| [s pc] outer]; [split; [reflexivity | exact Hfresh] |].
    cbn [forallb] in Hfresh. apply andb_prop in Hfresh as [Hpc Houter].
    destruct pc; try discriminate.
    unfold handler_step. cbn [act_pc proc]. rewrite Hflag.
    split; [reflexivity | exact Houter].
Qed.

Lemma settled_all env st os :
  forall m,
    TerminationFlag (proc m) = true -> forallb at_test (running m) = true ->
    sigactions (proc m) = sigactions st -> Forall (of_termination st) os ->
    proc (occur_all env os m) = proc m.
Proof.
  induction os as [| o rest IH]; intros m Hflag Hfresh Hsig Hos; [reflexivity |].
  apply Forall_cons in Hos as [Ho Hrest].
  destruct (settled_occur env st m o Hflag Hfresh Hsig Ho) as [Hproc Hfresh'].
  rewrite occur_all_cons, IH by (rewrite ?Hproc; assumption).
  exact Hproc.
Qed.

(** X13. Termination signals in every order of deliveries and steps.
    The flag is clear and no run of the handler is in progress; signals
    that have the termination handler are delivered, each at any time,
    also inside a run of the handler for another signal, and the runs do
    their steps.  Then nothing of the process changes but the flag and
    the log calls of the handler: the dispositions stay.  No call is
    logged while the flag is clear, and at most one line is begun for each
    delivery.  Whenever no run is in progress and a signal has been
    delivered, the flag is set, at least one line is logged and every line
    begun is ended; and from there on deliveries change nothing at all. *)
Theorem termination_signals_interleaved env st (os : list occurrence) :
  TerminationFlag st = false -> Forall (of_termination st) os ->
  let m := occur_all env os (quiet st) in
  exists logged,
    proc m = with_events_of (with_flag (TerminationFlag (proc m)) st) (events st ++ logged)
    /\ forallb is_log logged = true
    /\ (TerminationFlag (proc m) = false -> logged = [])
    /\ (lines_begun logged <= deliveries os)%nat
    /\ (running m = [] -> (0 < deliveries os)%nat ->
        TerminationFlag (proc m) = true
        /\ (1 <= lines_begun logged)%nat /\ lines_ended logged = lines_begun logged)
    /\ (running m = [] -> TerminationFlag (proc m) = true ->
        forall later, Forall (of_termination st) later ->
          proc (occur_all env later m) = proc m).
Proof.
  intros Hflag Hos m.
  destruct (reached_all env st os 0 [] (quiet st) (reached_quiet st Hflag) Hos)
    as (logged & [Hproc Hlog Hclear Hset Hbound Hended]).
  fold m in Hproc, Hclear, Hset, Hbound, Hended. rewrite Nat.add_0_r in *.
  exists logged. split; [exact Hproc |]. split; [exact Hlog |].
  split; [intros Hf; apply (Hclear Hf) |].
  split; [lia |]. split.
  - intros Hrun Hsome.
    assert (Hf : TerminationFlag (proc m) = true).
    { destruct (TerminationFlag (proc m)) eqn:Hf; [reflexivity |].
      destruct (Hclear eq_refl) as (_ & _ & Hnone). specialize (Hnone Hrun). lia. }
    specialize (Hset Hf). rewrite Hrun in Hset, Hended. unfold count in *. simpl in *.
    split; [exact Hf |]. split; lia.
  - intros Hrun Hf later Hlater.
    apply (settled_all env st later m Hf); [rewrite Hrun; reflexivity | | exact Hlater].
    rewrite Hproc. reflexivity.
Qed.

End Interrupted.

Lemma handleTerminationSignal_interrupted_witness :
  TerminationFlag (@setTerminationSignals linux (start env0)) = false
  /\ 15 <> 2
  /\ events
       (proc (@occur_all linux env0
                (Delivers 15 :: Resumes :: Delivers 2 :: whole_run ++ repeat Resumes 5)%list
                (quiet (@setTerminationSignals linux (start env0)))))
     = (events (@setTerminationSignals linux (start env0))
          ++ [Log_signalLogPrefix; Log_signalLog " Termination signal received: ";
              Log_signalLog "SIGINT"; Log_signalLog LF;
              Log_signalLogPrefix; Log_signalLog " Termination signal received: ";
              Log_signalLog "SIGTERM"; Log_signalLog LF])%list.
Proof.
  assert (Hflag : TerminationFlag (@setTerminationSignals linux (start env0)) = false)
    by reflexivity.
  assert (Hne : 15 <> 2) by discriminate.
  split; [exact Hflag |]. split; [exact Hne |].
  pose proof (@handleTerminationSignal_interrupted linux env0 15 2
                (@setTerminationSignals linux (start env0)) Hflag eq_refl eq_refl Hne)
    as (_ & _ & Hnested & _).
  rewrite Hnested. reflexivity.
Defined.

Lemma termination_signals_interleaved_witness :
  TerminationFlag (@setTerminationSignals linux (start env0)) = false
  /\ exists logged,
       events (proc (@occur_all linux env0
                       [Delivers 15; Resumes; Delivers 2; Resumes; Delivers 15; Resumes;
                        Delivers 1; Resumes; Resumes; Resumes]
                       (quiet (@setTerminationSignals linux (start env0)))))
       = (events (@setTerminationSignals linux (start env0)) ++ logged)%list
       /\ (lines_begun logged <= 4)%nat.
Proof.
  assert (Hflag : TerminationFlag (@setTerminationSignals linux (start env0)) = false)
    by reflexivity.
  split; [exact Hflag |].
  destruct (@termination_signals_interleaved linux env0
              (@setTerminationSignals linux (start env0))
              [Delivers 15; Resumes; Delivers 2; Resumes; Delivers 15; Resumes;
               Delivers 1; Resumes; Resumes; Resumes] Hflag)
    as (logged & Hproc & _ & _ & Hbound & _).
  { repeat (constructor; [first [exact I | reflexivity] |]). constructor. }
  exists logged. split; [rewrite Hproc; reflexivity | exact Hbound].
Defined.
